(** * enhance-form: the request/response orchestration of [<enhance-form>]

    A shallow embedding of the [EnhanceForm] custom element (the client
    module of the repository) and of the part of the browser it talks to:
    the DOM tree, abort controllers, event listeners, the fetch call and
    [window.location.assign].  Asynchronous handlers are split at their
    [await]: a [_send] part that runs up to the fetch call and a [_settle]
    part that runs once the request has settled. *)

From Stdlib Require Import String Ascii List Bool Arith PeanoNat ZArith Lia.
Import ListNotations.
Open Scope string_scope.
Open Scope list_scope.
Set Warnings "-register-all".

(** ** The DOM *)

Module Dom.

(** An element: [uid] is the identity of the JavaScript object (two
    references are the same node iff their uids agree); the other fields are
    what the component reads. *)
Inductive Node : Type :=
| Element (uid : nat) (tagName : string)
          (attributes : list (string * string)) (childNodes : list Node).

Definition uid (n : Node) : nat :=
  match n with Element u _ _ _ => u end.
Definition tagName (n : Node) : string :=
  match n with Element _ t _ _ => t end.
Definition attributes (n : Node) : list (string * string) :=
  match n with Element _ _ a _ => a end.
Definition childNodes (n : Node) : list Node :=
  match n with Element _ _ _ c => c end.

(** [element.getAttribute(name)]: [None] is JavaScript's [null]. *)
Fixpoint assoc (name : string) (l : list (string * string)) : option string :=
  match l with
  | [] => None
  | (k, v) :: r => if String.eqb k name then Some v else assoc name r
  end.

Definition getAttribute (name : string) (n : Node) : option string :=
  assoc name (attributes n).

(** The descendants of a node in document order (the node itself excluded). *)
Fixpoint descendants (n : Node) : list Node :=
  match n with
  | Element _ _ _ cs => flat_map (fun c => c :: descendants c) cs
  end.

(** A node and its descendants. *)
Definition nodes (n : Node) : list Node := n :: descendants n.

(** [root.querySelector] and [root.querySelectorAll] for a selector already
    compiled to a predicate on elements: first match, resp. all matches, among
    the descendants in document order. *)
Definition querySelector (p : Node -> bool) (root : Node) : option Node :=
  find p (descendants root).

Definition querySelectorAll (p : Node -> bool) (root : Node) : list Node :=
  filter p (descendants root).

(** The live objects: the document first, then every detached subtree that
    is still referenced. *)
Definition Forest : Type := list Node.

Definition all_nodes (f : Forest) : list Node := flat_map nodes f.

Definition lookup (id : nat) (f : Forest) : option Node :=
  find (fun n => Nat.eqb (uid n) id) (all_nodes f).

(** Put [new] where the child with identity [c] is. *)
Fixpoint substitute (c : nat) (new : Node) (n : Node) : Node :=
  match n with
  | Element u t a cs =>
      Element u t a
        (map (fun ch => if Nat.eqb (uid ch) c then new else substitute c new ch) cs)
  end.

(** A node has a parent iff it is a proper descendant of some root. *)
Definition hasParent (c : nat) (f : Forest) : bool :=
  existsb (fun r => existsb (fun d => Nat.eqb (uid d) c) (descendants r)) f.

(** [current.replaceWith(new)].  The DOM standard returns at once when
    [current] has no parent; otherwise [new] takes its place and [current]
    becomes a detached tree (its own subtree is kept). *)
Definition replaceWith (c : nat) (new : Node) (f : Forest) : Forest :=
  if hasParent c f then
    match lookup c f with
    | Some old => map (substitute c new) f ++ [old]
    | None => f
    end
  else f.

(** The inclusive ancestors of the node [c] inside [n], nearest first; empty
    when [c] is not in [n]. *)
Fixpoint chain (c : nat) (n : Node) : list Node :=
  match n with
  | Element u _ _ cs =>
      if Nat.eqb u c then [n]
      else
        match
          (fix first (l : list Node) : list Node :=
             match l with
             | [] => []
             | ch :: r => match chain c ch with [] => first r | p => p end
             end) cs
        with
        | [] => []
        | p => p ++ [n]
        end
  end.

Fixpoint chain_in (c : nat) (f : Forest) : list Node :=
  match f with
  | [] => []
  | r :: rest => match chain c r with [] => chain_in c rest | p => p end
  end.

(** [element.closest] for a compiled selector: the nearest inclusive
    ancestor that matches. *)
Definition closest (p : Node -> bool) (c : nat) (f : Forest) : option Node :=
  find p (chain_in c f).

(** One-hole contexts whose hole has a parent: the surroundings of a node
    in a tree. *)
Inductive Ctx : Type :=
| Top (u : nat) (t : string) (a : list (string * string))
      (before after : list Node)
| Under (u : nat) (t : string) (a : list (string * string))
        (before : list Node) (inner : Ctx) (after : list Node).

Fixpoint plug (k : Ctx) (x : Node) : Node :=
  match k with
  | Top u t a l r => Element u t a (l ++ x :: r)
  | Under u t a l k' r => Element u t a (l ++ plug k' x :: r)
  end.

(** The identities of the nodes of a context (the spine and the siblings'
    subtrees; the hole excluded). *)
Fixpoint ctx_ids (k : Ctx) : list nat :=
  match k with
  | Top u _ _ l r => u :: map uid (flat_map nodes l) ++ map uid (flat_map nodes r)
  | Under u _ _ l k' r =>
      u :: map uid (flat_map nodes l) ++ ctx_ids k' ++ map uid (flat_map nodes r)
  end.

End Dom.

Import Dom.

(** ** Headers, responses and the browser state *)

(** [src/headers.ts]: the custom headers of the protocol. *)
Module EnhancedHeader.
Definition Redirect : string := "X-Enhance-Redirect".
Definition Submit : string := "X-Enhance-Submit".
Definition Validate : string := "X-Enhance-Validate".
End EnhancedHeader.

(** [signal.reason]: the argument given to [abort], or the default
    "AbortError" [DOMException] when [abort()] is called without one. *)
Inductive AbortReason : Type :=
| Reason (text : string)
| AbortError.

(** An [AbortController].  [channel] is bookkeeping of the model only: the
    key of [controllers] under which the controller was registered when it
    was created. *)
Record AbortController : Type := mkController {
  channel : string;
  aborted : bool;
  reason : option AbortReason
}.

(** What JavaScript throws, or a promise rejects with. *)
Inductive JsError : Type :=
| TypeError                     (* property access on [null] *)
| SyntaxError (text : string)    (* a selector or URL that does not parse *)
| InvalidStateError             (* [setSelectionRange] does not apply *)
| Error (message : string)      (* [new Error(message)] *)
| NetworkFailure                (* fetch or body read failed in transit *)
| Cancelled (why : AbortReason). (* the request's signal was aborted *)

(** The [Response] fields the component reads. *)
Record Response : Type := mkResponse {
  status : nat;
  redirected : bool;
  url : string;
  headers : list (string * string)
}.

(** [await response.text()] followed by [parser.parseFromString]: the read
    may reject; parsing yields a document node whose descendants are the
    elements of the response. *)
Inductive Body : Type :=
| TextRejected (e : JsError)
| Parsed (html : Node).

(** How the promise of [fetch] settles. *)
Inductive Settlement : Type :=
| FetchRejected (e : JsError)
| FetchResolved (response : Response) (body : Body).

Inductive EventType : Type := Blur | Submit.

(** The target of a blur event: the two properties the handler reads. *)
Record HTMLInputElement : Type := mkInput {
  name : string;
  value : string
}.

(** Calls into the browser that leave no trace in the other fields.
    Each stands for the call, whether or not the browser goes on to throw:
    [LocationAssign] for [window.location.assign(href)], which throws when
    [href] does not parse, and [SetSelectionRange] for the method of that
    name, which throws on a control without selection.  [StartViewTransition] stands for [document.startViewTransition(callback)]:
    the callback of the component replaces the target with the one of [html]
    at the node [target], and the browser calls it later. *)
Inductive Effect : Type :=
| PreventDefault
| Abort (controller : nat) (why : option string)
| Fetch (form : nat) (header : string * string) (signal : option nat)
| LocationAssign (href : string)
| ConsoleWarn (e : JsError)
| Focus (element : nat)
| SetSelectionRange (element : nat) (selStart selEnd : Z)
| StartViewTransition (html : Node) (target : option nat).

(** The browser state together with the fields of the [EnhanceForm]
    instance ([this], [_form], the two selectors, [controllers]).  [_form] is
    declared [HTMLFormElement] in the source, but an unchecked cast can store
    [null] in it: hence the option. *)
Record World : Type := mkWorld {
  dom : Forest;
  origin : string;                    (* window.location.origin *)
  hasViewTransitions : bool;          (* document.startViewTransition exists *)
  aborts : list AbortController;      (* every controller created, by index *)
  listeners : list (nat * EventType); (* addEventListener calls, in order *)
  log : list Effect;                  (* oldest first *)
  this : nat;
  _form : option nat;
  _targetSelector : string;
  _failTargetSelector : string;
  controllers : list (string * nat)   (* Map, in insertion order *)
}.

Definition set_dom (f : Forest) (w : World) : World :=
  mkWorld f (origin w) (hasViewTransitions w) (aborts w) (listeners w) (log w)
          (this w) (_form w) (_targetSelector w) (_failTargetSelector w)
          (controllers w).

Definition set_aborts (a : list AbortController) (w : World) : World :=
  mkWorld (dom w) (origin w) (hasViewTransitions w) a (listeners w) (log w)
          (this w) (_form w) (_targetSelector w) (_failTargetSelector w)
          (controllers w).

Definition set_listeners (l : list (nat * EventType)) (w : World) : World :=
  mkWorld (dom w) (origin w) (hasViewTransitions w) (aborts w) l (log w)
          (this w) (_form w) (_targetSelector w) (_failTargetSelector w)
          (controllers w).

Definition set_log (l : list Effect) (w : World) : World :=
  mkWorld (dom w) (origin w) (hasViewTransitions w) (aborts w) (listeners w) l
          (this w) (_form w) (_targetSelector w) (_failTargetSelector w)
          (controllers w).

Definition set_form (f : option nat) (w : World) : World :=
  mkWorld (dom w) (origin w) (hasViewTransitions w) (aborts w) (listeners w)
          (log w) (this w) f (_targetSelector w) (_failTargetSelector w)
          (controllers w).

Definition set_controllers (c : list (string * nat)) (w : World) : World :=
  mkWorld (dom w) (origin w) (hasViewTransitions w) (aborts w) (listeners w)
          (log w) (this w) (_form w) (_targetSelector w)
          (_failTargetSelector w) c.

(** ** Computations: state and exceptions *)

Inductive Completion (A : Type) : Type :=
| Normal (a : A)
| Throw (e : JsError).
Arguments Normal {A} a.
Arguments Throw {A} e.

(** What was written to the state before a throw stays written. *)
Definition Js (A : Type) : Type := World -> Completion A * World.

Definition ret {A} (a : A) : Js A := fun w => (Normal a, w).

Definition throw {A} (e : JsError) : Js A := fun w => (Throw e, w).

Definition bind {A B} (m : Js A) (k : A -> Js B) : Js B :=
  fun w =>
    match m w with
    | (Normal a, w') => k a w'
    | (Throw e, w') => (Throw e, w')
    end.

Definition try_catch {A} (m : Js A) (handler : JsError -> Js A) : Js A :=
  fun w =>
    match m w with
    | (Normal a, w') => (Normal a, w')
    | (Throw e, w') => handler e w'
    end.

Definition get : Js World := fun w => (Normal w, w).

Definition modify (f : World -> World) : Js unit := fun w => (Normal tt, f w).

Notation "x <- m ;; k" := (bind m (fun x => k))
  (at level 61, m at next level, right associativity).
Notation "m ;; k" := (bind m (fun _ => k))
  (at level 61, right associativity).

Definition emit (e : Effect) : Js unit :=
  modify (fun w => set_log (log w ++ [e]) w).

(** A computation that does not touch the state. *)
Definition lift {A} (c : Completion A) : Js A := fun w => (c, w).

Fixpoint forEach {A} (f : A -> Js unit) (l : list A) : Js unit :=
  match l with
  | [] => ret tt
  | x :: r => f x ;; forEach f r
  end.

(** ** [Map<string, AbortController>] and the controllers *)

Fixpoint Map_get (k : string) (m : list (string * nat)) : option nat :=
  match m with
  | [] => None
  | (k', v) :: r => if String.eqb k' k then Some v else Map_get k r
  end.

(** [Map.set]: an existing key keeps its place in the iteration order. *)
Fixpoint Map_set (k : string) (v : nat) (m : list (string * nat))
  : list (string * nat) :=
  match m with
  | [] => [(k, v)]
  | (k', v') :: r =>
      if String.eqb k' k then (k, v) :: r else (k', v') :: Map_set k v r
  end.

Fixpoint update {A} (i : nat) (f : A -> A) (l : list A) {struct l}
  : list A :=
  match l, i with
  | [], _ => []
  | x :: r, 0 => f x :: r
  | x :: r, S j => x :: update j f r
  end.

(** [signal.aborted] becomes true once and the reason of the first abort
    stays. *)
Definition mark_aborted (why : option string) (c : AbortController)
  : AbortController :=
  if aborted c then c
  else mkController (channel c) true
         (Some match why with Some s => Reason s | None => AbortError end).

(** [controller.abort(why)]. *)
Definition abort (c : nat) (why : option string) : Js unit :=
  emit (Abort c why) ;;
  modify (fun w => set_aborts (update c (mark_aborted why) (aborts w)) w).

(** [this.controllers.set(key, new AbortController())]. *)
Definition register (key : string) : Js unit :=
  modify (fun w =>
    set_controllers (Map_set key (length (aborts w)) (controllers w))
      (set_aborts (aborts w ++ [mkController key false None]) w)).

(** ** The component *)

Definition dquote : string := String (ascii_of_nat 34) EmptyString.

(** [":is(input, textarea)[enhance-validate]"] *)
Definition validateSelector : string := ":is(input, textarea)[enhance-validate]".

(** The selector of [focusFirstInvalidInput]: input or textarea whose
    [aria-invalid] attribute is [true]. *)
Definition invalidSelector : string :=
  String.append ":is(input, textarea)[aria-invalid="
    (String.append dquote (String.append "true" (String.append dquote "]"))).

(** The template literal of [handleInputValidation]. *)
Definition groupSelector (fieldName : string) : string :=
  String.append ":is([enhance-form-group], fieldset):has([name="
    (String.append dquote
       (String.append fieldName (String.append dquote "])"))).

(** JavaScript truthiness of a string or [null]: [a || b]. *)
Definition truthy (s : option string) : bool :=
  match s with
  | Some (String _ _) => true
  | _ => false
  end.

Definition or_else (a b : option string) : option string :=
  if truthy a then a else b.

Definition or_empty (a : option string) : string :=
  match a with
  | Some s => s
  | None => EmptyString
  end.

(** ** The form handlers of the demo server ([demo/createFormHandler.tsx]) *)

Module Server.

Definition lower_ascii (c : ascii) : ascii :=
  let n := nat_of_ascii c in
  if Nat.leb 65 n && Nat.leb n 90 then ascii_of_nat (n + 32) else c.

Fixpoint lowercase (s : string) : string :=
  match s with
  | EmptyString => EmptyString
  | String c r => String (lower_ascii c) (lowercase r)
  end.

(** The values of the headers called [name], names compared without case. *)
Definition header_values (name : string) (hs : list (string * string))
  : list string :=
  map snd
    (filter (fun kv => String.eqb (lowercase (fst kv)) (lowercase name)) hs).

(** [c.req.header(name)]: [None] (undefined) when there is no such header,
    else the values joined by a comma and a space. *)
Definition header (name : string) (hs : list (string * string))
  : option string :=
  match header_values name hs with
  | [] => None
  | v :: vs =>
      Some (fold_left (fun acc x => String.append acc (String.append ", " x))
              vs v)
  end.

(** [isInlineValidation]. *)
Definition isInlineValidation (hs : list (string * string)) : bool :=
  truthy (header "X-Up-Validate" hs) || truthy (header "X-Enhance-Validate" hs).

Section Handlers.

(** The data of the schema, the validator's error and its flattened form,
    and a response built by the application itself. *)
Variables (Data ZodError FlatErrors RawResponse : Type).

(** [z.flattenError]. *)
Variable flattenError : ZodError -> FlatErrors.

(** The result the validator passes to its hook. *)
Inductive ZodResult : Type :=
| Success (data : Data)
| Failure (data : Data) (error : ZodError).

(** [OnSubmitResult]. *)
Inductive OnSubmitResult : Type :=
| redirect (path : string)
| error (message : string)
| response (r : RawResponse).

(** [FormProps]. *)
Record FormProps : Type := mkProps {
  data : option Data;
  errors : option FlatErrors;
  formError : option string
}.

Inductive HonoResponse : Type :=
| Render (status : nat) (props : FormProps)  (* c.status(n); c.render(<Form/>) *)
| Redirect (status : nat) (location : string) (* c.redirect(location) *)
| Raw (r : RawResponse).

(** The application's callback, as a function of the data and the request
    headers. *)
Variable onSubmit : Data -> list (string * string) -> OnSubmitResult.

(** [createGetHandler]. *)
Definition createGetHandler : HonoResponse :=
  Render 200 (mkProps None None None).

(** [createPostHandler]: the hook given to the validator, as a function of
    the validation result and the request headers.  It yields the response
    and the data [onSubmit] was called with (the [console.log] of the failure
    branch is left out). *)
Definition createPostHandler (result : ZodResult)
    (headers : list (string * string)) : HonoResponse * list Data :=
  match result with
  | Failure d e =>
      (Render 422 (mkProps (Some d) (Some (flattenError e)) None), [])
  | Success d =>
      if isInlineValidation headers then
        (Render 200 (mkProps (Some d) None None), [])
      else
        (match onSubmit d headers with
         | response r => Raw r
         | error message =>
             Render 422 (mkProps (Some d) None (Some message))
         | redirect path => Redirect 302 path
         end, [d])
  end.

End Handlers.

End Server.

Arguments Server.Success {Data ZodError} data.
Arguments Server.Failure {Data ZodError} data error.
Arguments Server.redirect {RawResponse} path.
Arguments Server.error {RawResponse} message.
Arguments Server.response {RawResponse} r.
Arguments Server.mkProps {Data FlatErrors} data errors formError.
Arguments Server.Render {Data FlatErrors RawResponse} status props.
Arguments Server.Redirect {Data FlatErrors RawResponse} status location.
Arguments Server.Raw {Data FlatErrors RawResponse} r.
Arguments Server.createPostHandler {Data ZodError FlatErrors RawResponse}
  flattenError onSubmit result headers.

(** [getHeader]: [response.headers.get(name)], the lookup of the Fetch
    [Headers] class as above: names are compared without case and the values
    of repeated headers are joined. *)
Definition getHeader (response : Response) (name : string) : option string :=
  Server.header name (headers response).

(** HTTP whitespace: tab, line feed, carriage return and space. *)
Definition http_whitespace (c : ascii) : bool :=
  existsb (Nat.eqb (nat_of_ascii c)) [9; 10; 13; 32].

Fixpoint strip_leading (s : string) : string :=
  match s with
  | EmptyString => EmptyString
  | String c r => if http_whitespace c then strip_leading r else s
  end.

Fixpoint strip_trailing (s : string) : string :=
  match s with
  | EmptyString => EmptyString
  | String c r =>
      match strip_trailing r with
      | EmptyString => if http_whitespace c then EmptyString
                       else String c EmptyString
      | r' => String c r'
      end
  end.

(** A header value as [Headers.append] normalises it. *)
Definition normalize (value : string) : string :=
  strip_trailing (strip_leading value).

(** A normalised text is a header value when it has no NUL, line feed or
    carriage return. *)
Fixpoint header_value (s : string) : bool :=
  match s with
  | EmptyString => true
  | String c r =>
      negb (existsb (Nat.eqb (nat_of_ascii c)) [0; 10; 13]) && header_value r
  end.

(** [addHeader]: [new Headers()] and [headers.append(name, value)], for
    the names of [EnhancedHeader].  The value is normalised; [append] throws
    a [TypeError] when the rest is not a header value.  (A text is taken by
    its code units, all below 256; [append] also throws on others.) *)
Definition addHeader (name value : string) : Completion (string * string) :=
  if header_value (normalize value) then Normal (name, normalize value)
  else Throw TypeError.

(** The same response without any header called [name]. *)
Definition without_header (name : string) (response : Response) : Response :=
  mkResponse (status response) (redirected response) (url response)
    (filter
       (fun kv =>
          negb (String.eqb (Server.lowercase (fst kv)) (Server.lowercase name)))
       (headers response)).

(** The same response with its [redirected] flag set to [b]. *)
Definition with_redirected (b : bool) (response : Response) : Response :=
  mkResponse (status response) b (url response) (headers response).

(** The selection API applies to textareas and to inputs in one of the
    states text, search, url, telephone and password; an input is in the text
    state when it has no [type] or one that is not a known keyword, and
    keywords are matched without case.  On other inputs [setSelectionRange]
    throws. *)
Definition selection_applies (el : Node) : bool :=
  if String.eqb (tagName el) "textarea" then true
  else
    match getAttribute "type" el with
    | None => true
    | Some t =>
        negb
          (existsb (String.eqb (Server.lowercase t))
             ["hidden"; "email"; "date"; "month"; "week"; "time";
              "datetime-local"; "number"; "range"; "color"; "checkbox";
              "radio"; "file"; "submit"; "image"; "reset"; "button"])
    end.

(** ["setSelectionRange" in element]: the method exists on input and
    textarea elements. *)
Definition has_setSelectionRange (el : Node) : bool :=
  String.eqb (tagName el) "input" || String.eqb (tagName el) "textarea".



(** A controller that exists and has not been aborted. *)
Definition live (w : World) (c : nat) : bool :=
  match nth_error (aborts w) c with
  | Some a => negb (aborted a)
  | None => false
  end.

(** The live controllers created for a channel key. *)
Definition live_tokens (key : string) (w : World) : list nat :=
  filter
    (fun c =>
       match nth_error (aborts w) c with
       | Some a => negb (aborted a) && String.eqb (channel a) key
       | None => false
       end)
    (seq 0 (length (aborts w))).

(** The URLs given to [window.location.assign], in order. *)
Fixpoint navigations (l : list Effect) : list string :=
  match l with
  | [] => []
  | LocationAssign u :: r => u :: navigations r
  | _ :: r => navigations r
  end.

(** The requests issued, in order. *)
Fixpoint requests (l : list Effect) : list (string * string) :=
  match l with
  | [] => []
  | Fetch _ h _ :: r => h :: requests r
  | _ :: r => requests r
  end.

(** The identities of all nodes of a forest, in document order. *)
Definition uids (f : Forest) : list nat := map uid (all_nodes f).

(** What the page provides when the element is created. *)
Record Page : Type := mkPage {
  page_dom : Forest;
  page_origin : string;
  page_hasViewTransitions : bool
}.

Section Component.

(** The selector engine: the predicate a selector text denotes, [None] when
    the text is not a valid selector ([querySelector] then throws a
    [SyntaxError]). *)
Variable css : string -> option (Node -> bool).

(** [new URL(url).origin]; [None] when the constructor throws. *)
Variable origin_of : string -> option string.

(** The URL parser with the page as base: whether a text given to
    [window.location.assign] parses. *)
Variable resolves : string -> bool.

Definition compile (selector : string) : Js (Node -> bool) :=
  match css selector with
  | Some p => ret p
  | None => throw (SyntaxError selector)
  end.

(** [element.querySelector(selector)] for an element given by identity. *)
Definition querySelector_of (id : nat) (selector : string) : Js (option Node) :=
  p <- compile selector ;;
  w <- get ;;
  ret match lookup id (dom w) with
      | Some n => querySelector p n
      | None => None
      end.

(** [this.querySelector(selector)]. *)
Definition this_querySelector (selector : string) : Js (option Node) :=
  w <- get ;;
  querySelector_of (this w) selector.

(** [this.closest(selector)]. *)
Definition this_closest (selector : string) : Js (option Node) :=
  p <- compile selector ;;
  w <- get ;;
  ret (closest p (this w) (dom w)).

(** Reading [this._form] for a property access: a [TypeError] on [null]. *)
Definition form_ref : Js nat :=
  w <- get ;;
  match _form w with
  | Some f => ret f
  | None => throw TypeError
  end.

Definition addEventListener (el : nat) (type : EventType) : Js unit :=
  modify (fun w => set_listeners (listeners w ++ [(el, type)]) w).

(** [constructor], for the element [self] of the page (an identity that is
    not on the page has no element to construct). *)
Definition constructor (page : Page) (self : nat) : Completion World :=
  match lookup self (page_dom page) with
  | None => Throw TypeError
  | Some el =>
      match css "form" with
      | None => Throw (SyntaxError "form")
      | Some p =>
          let form := querySelector p el in
          let target := or_empty (or_else (getAttribute "target" el) None) in
          let failTarget :=
            or_empty (or_else (getAttribute "fail-target" el)
                        (or_else (getAttribute "target" el) None)) in
          match form with
          | None => Throw (Error "No form found in <enhance-form>")
          | Some f =>
              Normal (mkWorld (page_dom page) (page_origin page)
                        (page_hasViewTransitions page) [] [] []
                        self (Some (uid f)) target failTarget [])
          end
      end
  end.

(** [isInternalUrl]. *)
Definition isInternalUrl (w : World) (u : string) : bool :=
  match origin_of u with
  | Some o => String.eqb o (origin w)
  | None => true
  end.

(** [requestForm] up to its first [await]: the fetch call. *)
Definition requestForm_send (header : string * string) (signal : option nat)
  : Js unit :=
  f <- form_ref ;;
  emit (Fetch f header signal).

(** [requestForm] from the settlement of the fetch on.  ([response.url] is
    a URL the browser has serialised and that [new URL] has just parsed, so
    that [assign] does not throw on it.) *)
Definition requestForm_settle (s : Settlement)
  : Js (Response * option Node) :=
  match s with
  | FetchRejected e => throw e
  | FetchResolved response body =>
      w <- get ;;
      if redirected response && negb (isInternalUrl w (url response)) then
        emit (LocationAssign (url response)) ;;
        ret (response, None)
      else
        match body with
        | TextRejected e => throw e
        | Parsed html => ret (response, Some html)
        end
  end.

(** [replaceElements]. *)
Definition replaceElements (html : Node) (selector : string)
    (replaceRootElement : option nat) : Js (option Node) :=
  p <- compile selector ;;
  let newElement := querySelector p html in
  currentElement <-
    match replaceRootElement with
    | Some r => ret (Some r)
    | None =>
        c <- this_querySelector selector ;;
        ret (option_map uid c)
    end ;;
  match newElement, currentElement with
  | Some n, Some c =>
      modify (fun w => set_dom (replaceWith c n (dom w)) w) ;;
      ret (Some n)
  | _, _ => ret None
  end.

(** [bindEvents].  Every call creates a new listener function, so repeated
    calls add up. *)
Definition bindEvents (target : option nat) : Js unit :=
  match target with
  | Some t => addEventListener t Blur
  | None =>
      f <- form_ref ;;
      addEventListener f Submit ;;
      inputs <- (p <- compile validateSelector ;;
                 w <- get ;;
                 ret match lookup f (dom w) with
                     | Some n => querySelectorAll p n
                     | None => []
                     end) ;;
      forEach (fun input => addEventListener (uid input) Blur) inputs
  end.

(** [connectedCallback]. *)
Definition connectedCallback : Js unit := bindEvents None.

(** The [catch] block of both handlers. *)
Definition warn {A} (a : A) (e : JsError) : Js A :=
  emit (ConsoleWarn e) ;; ret a.

(** [handleInputValidation] up to its [await]; the result tells whether a
    request is now in flight. *)
Definition handleInputValidation_send (target : HTMLInputElement) : Js bool :=
  match value target with
  | EmptyString => ret false
  | String _ _ =>
      w <- get ;;
      match Map_get (name target) (controllers w) with
      | Some c => abort c (Some "Aborted by user")
      | None => ret tt
      end ;;
      register (name target) ;;
      w <- get ;;
      let signal := Map_get (name target) (controllers w) in
      try_catch
        (headers <- lift (addHeader EnhancedHeader.Validate (name target)) ;;
         requestForm_send headers signal ;;
         ret true)
        (warn false)
  end.

(** [handleInputValidation] once the request has settled. *)
Definition handleInputValidation_settle (target : HTMLInputElement)
    (s : Settlement) : Js unit :=
  try_catch
    (r <- requestForm_settle s ;;
     match snd r with
     | None => ret tt
     | Some html =>
         newFormGroup <- replaceElements html (groupSelector (name target)) None ;;
         newValidateInput <-
           match newFormGroup with
           | None => ret None
           | Some g =>
               p <- compile validateSelector ;;
               ret (querySelector p g)
           end ;;
         match newValidateInput with
         | Some input => bindEvents (Some (uid input))
         | None => ret tt
         end
     end)
    (warn tt).

(** [handleInputValidation] when nothing else runs during the [await]. *)
Definition handleInputValidation (target : HTMLInputElement) (s : Settlement)
  : Js unit :=
  sent <- handleInputValidation_send target ;;
  if sent then handleInputValidation_settle target s else ret tt.

(** [window.location.assign(href)]: the call is recorded; it throws a
    [SyntaxError] when [href] does not parse. *)
Definition assign (href : string) : Js unit :=
  emit (LocationAssign href) ;;
  if resolves href then ret tt else throw (SyntaxError href).

(** [handleRedirect]. *)
Definition handleRedirect (response : Response) : Js unit :=
  let redirectString := getHeader response EnhancedHeader.Redirect in
  if negb (truthy redirectString) then ret tt
  else assign (or_empty redirectString).

(** The function [handleFormValidation] gives to [viewTransition]:
    [() => this.replaceElements(html, this._targetSelector, target)]. *)
Definition replaceTarget (html : Node) (target : option nat) : Js unit :=
  w <- get ;;
  replaceElements html (_targetSelector w) target ;;
  ret tt.

(** [viewTransition], at its one call site.  Without the View Transitions
    API the function runs at once; with it the function is handed to
    [document.startViewTransition], which calls it later. *)
Definition viewTransition (html : Node) (target : option nat) : Js unit :=
  w <- get ;;
  if negb (hasViewTransitions w) then replaceTarget html target
  else emit (StartViewTransition html target).

(** The browser calling the function given to [startViewTransition], after
    the handler and the listener have returned; what the function throws
    rejects the promises of the transition and reaches nobody. *)
Definition transitionCallback (html : Node) (target : option nat) : Js unit :=
  try_catch (replaceTarget html target) (fun _ => ret tt).

(** [handleFormValidation] up to its [await]. *)
Definition handleFormValidation_send : Js bool :=
  emit PreventDefault ;;
  try_catch
    (w <- get ;;
     forEach (fun kc => abort (snd kc) None) (controllers w) ;;
     register "form" ;;
     w <- get ;;
     headers <- lift (addHeader EnhancedHeader.Submit "form") ;;
     requestForm_send headers (Map_get "form" (controllers w)) ;;
     ret true)
    (warn false).

(** The three status blocks of [handleFormValidation], in source order.
    "We expect the same form to be returned with all 4XX errors." *)
Definition on4XX (response : Response) (html : Node) : Js unit :=
  if Nat.leb 400 (status response) && Nat.leb (status response) 499 then
    newForm <- replaceElements html "form" None ;;
    modify (set_form (option_map uid newForm)) ;;
    bindEvents None
  else ret tt.

(** "We do NOT expect the same form to be returned with 5XX errors." *)
Definition on5XX (response : Response) (html : Node) : Js unit :=
  if Nat.leb 500 (status response) && Nat.leb (status response) 599 then
    w <- get ;;
    replaceElements html (_failTargetSelector w) (Some (this w)) ;;
    ret tt
  else ret tt.

Definition on200 (response : Response) (html : Node) : Js unit :=
  if Nat.eqb (status response) 200 then
    w <- get ;;
    c <- this_closest (_targetSelector w) ;;
    target <-
      match c with
      | Some _ =>
          c' <- this_closest (_targetSelector w) ;;
          ret (option_map uid c')
      | None => ret (Some (this w))
      end ;;
    viewTransition html target
  else ret tt.

(** [handleFormValidation] once the request has settled. *)
Definition handleFormValidation_settle (s : Settlement) : Js unit :=
  try_catch
    (r <- requestForm_settle s ;;
     let response := fst r in
     match getHeader response EnhancedHeader.Redirect with
     | Some _ => handleRedirect response
     | None => ret tt
     end ;;
     match snd r with
     | None => ret tt
     | Some html =>
         on4XX response html ;;
         on5XX response html ;;
         on200 response html
     end)
    (warn tt).

(** [handleFormValidation] when nothing else runs during the [await]. *)
Definition handleFormValidation (s : Settlement) : Js unit :=
  sent <- handleFormValidation_send ;;
  if sent then handleFormValidation_settle s else ret tt.

(** [focusFirstInvalidInput]. *)
Definition focusFirstInvalidInput : Js unit :=
  f <- form_ref ;;
  firstInvalidInput <- querySelector_of f invalidSelector ;;
  match firstInvalidInput with
  | None => ret tt
  | Some el =>
      emit (Focus (uid el)) ;;
      if has_setSelectionRange el then
        emit (SetSelectionRange (uid el) (-1) (-1)) ;;
        if selection_applies el then ret tt else throw InvalidStateError
      else ret tt
  end.

(** The submit listener installed by [bindEvents]:
    [await this.handleFormValidation(event); this.focusFirstInvalidInput()]. *)
Definition submitListener (s : Settlement) : Js unit :=
  handleFormValidation s ;;
  focusFirstInvalidInput.

Definition submitListener_settle (s : Settlement) : Js unit :=
  handleFormValidation_settle s ;;
  focusFirstInvalidInput.

(** The blur listener installed by [bindEvents]. *)
Definition blurHandler (target : HTMLInputElement) (s : Settlement) : Js unit :=
  handleInputValidation target s.

(** The failure a settlement raises inside [requestForm], if any: the
    fetch rejects (network failure or cancellation), or reading the body
    does.  The body of an externally redirected response is not read. *)
Definition failure (w : World) (s : Settlement) : option JsError :=
  match s with
  | FetchRejected e => Some e
  | FetchResolved response (TextRejected e) =>
      if redirected response && negb (isInternalUrl w (url response))
      then None else Some e
  | FetchResolved _ (Parsed _) => None
  end.

(** ** The component as a transition system

    What can happen to an instance: it is attached, a blur or submit
    listener runs to its [await], a pending request settles and the rest
    of its handler runs, or the browser calls the function of a view
    transition. *)
Inductive Step : Type :=
| Connected
| BlurSent (target : HTMLInputElement)
| BlurSettled (target : HTMLInputElement) (s : Settlement)
| SubmitSent
| SubmitSettled (s : Settlement)
| TransitionRun (html : Node) (target : option nat).

Definition step (st : Step) (w : World) : World :=
  match st with
  | Connected => snd (connectedCallback w)
  | BlurSent target => snd (handleInputValidation_send target w)
  | BlurSettled target s => snd (handleInputValidation_settle target s w)
  | SubmitSent => snd (handleFormValidation_send w)
  | SubmitSettled s => snd (submitListener_settle s w)
  | TransitionRun html target => snd (transitionCallback html target w)
  end.

Definition steps (l : list Step) (w : World) : World :=
  fold_left (fun w st => step st w) l w.

Inductive reachable : World -> Prop :=
| reach_new page self w :
    constructor page self = Normal w -> reachable w
| reach_step st w :
    reachable w -> reachable (step st w).

(** A step that does not start a validation of [field] nor a submission. *)
Definition elsewhere (field : string) (st : Step) : bool :=
  match st with
  | BlurSent target =>
      negb (String.eqb (name target) field)
      || match value target with EmptyString => true | _ => false end
  | SubmitSent => false
  | _ => true
  end.

End Component.

Arguments compile css selector : rename.

(** ** A small selector engine and the pages of the README and the demo

    Used to run the component on concrete pages.  The engine knows the
    selectors the component builds itself, [#id] and type selectors; the empty
    text is not a selector. *)

Module Sample.

Definition is_control (n : Node) : bool :=
  String.eqb (tagName n) "input" || String.eqb (tagName n) "textarea".

Definition has_attr (a : string) (n : Node) : bool :=
  match getAttribute a n with Some _ => true | None => false end.

Definition attr_is (a v : string) (n : Node) : bool :=
  match getAttribute a n with Some x => String.eqb x v | None => false end.

Definition is_form (n : Node) : bool := String.eqb (tagName n) "form".

Definition is_validate (n : Node) : bool :=
  is_control n && has_attr "enhance-validate" n.

Definition is_invalid (n : Node) : bool :=
  is_control n && attr_is "aria-invalid" "true" n.

Definition is_group (field : string) (n : Node) : bool :=
  (has_attr "enhance-form-group" n || String.eqb (tagName n) "fieldset")
  && existsb (attr_is "name" field) (descendants n).

Fixpoint strip_prefix (p s : string) : option string :=
  match p, s with
  | EmptyString, _ => Some s
  | String a p', String b s' =>
      if Ascii.eqb a b then strip_prefix p' s' else None
  | String _ _, EmptyString => None
  end.

(** The field name inside a group selector: the text before the closing
    quote, when the rest is the end of the selector. *)
Fixpoint field_of (s : string) : option string :=
  match s with
  | EmptyString => None
  | String c r =>
      if Ascii.eqb c (ascii_of_nat 34) then
        if String.eqb r "])" then Some EmptyString else None
      else option_map (String c) (field_of r)
  end.

Definition group_prefix : string :=
  String.append ":is([enhance-form-group], fieldset):has([name=" dquote.

Definition css (selector : string) : option (Node -> bool) :=
  match selector with
  | EmptyString => None
  | String c rest =>
      if String.eqb selector "form" then Some is_form
      else if String.eqb selector validateSelector then Some is_validate
      else if String.eqb selector invalidSelector then Some is_invalid
      else
        match strip_prefix group_prefix selector with
        | Some r => option_map is_group (field_of r)
        | None =>
            if Ascii.eqb c "#" then Some (attr_is "id" rest)
            else Some (fun n => String.eqb (tagName n) selector)
        end
  end.

(** Origins of the two kinds of URL used below. *)
Definition origin_of (u : string) : option string :=
  match strip_prefix "https://shop.example" u with
  | Some _ => Some "https://shop.example"
  | None =>
      match strip_prefix "https://pay.example" u with
      | Some _ => Some "https://pay.example"
      | None => None
      end
  end.

(** The URL parser of the samples rejects a special scheme without host
    and accepts everything else. *)
Definition resolves (u : string) : bool :=
  negb (String.eqb u "https://" || String.eqb u "http://").

Definition el (u : nat) (t : string) (a : list (string * string))
  (c : list Node) : Node := Element u t a c.

(** The form of the README. *)
Definition readme_form : Node :=
  el 11 "form" [("action", "/submit"); ("method", "POST")]
    [ el 12 "fieldset" [("enhance-form-group", EmptyString)]
        [ el 13 "label" [("for", "email")] [];
          el 14 "input" [("id", "email"); ("name", "email"); ("type", "email");
                         ("enhance-validate", EmptyString)] [] ];
      el 15 "fieldset" [("enhance-form-group", EmptyString)]
        [ el 16 "label" [("for", "name")] [];
          el 17 "input" [("id", "name"); ("name", "name"); ("type", "text");
                         ("enhance-validate", EmptyString)] [] ];
      el 18 "button" [("type", "submit")] [] ].

Definition readme_component : Node :=
  el 10 "enhance-form" [("target", "#result"); ("fail-target", "#errors")]
    [ readme_form ].

(** The page of the README: the component followed by the two targets. *)
Definition readme_document : Node :=
  el 0 "#document" []
    [ el 1 "html" []
        [ el 2 "body" []
            [ readme_component;
              el 20 "div" [("id", "result")] [];
              el 21 "div" [("id", "errors")] [] ] ] ].

Definition readme_page : Page :=
  mkPage [readme_document] "https://shop.example" false.

(** The instance the constructor builds on the README page. *)
Definition readme_world : World :=
  mkWorld [readme_document] "https://shop.example" false [] [] []
    10 (Some 11) "#result" "#errors" [].

(** A page whose targets are inside the component. *)
Definition inner_document : Node :=
  el 0 "#document" []
    [ el 1 "html" []
        [ el 2 "body" []
            [ el 10 "enhance-form"
                [("target", "#result"); ("fail-target", "#errors")]
                [ readme_form;
                  el 20 "div" [("id", "result")] [];
                  el 21 "div" [("id", "errors")] [] ] ] ] ].

Definition inner_world : World :=
  mkWorld [inner_document] "https://shop.example" false [] [] []
    10 (Some 11) "#result" "#errors" [].

(** Response documents. *)
Definition doc (u : nat) (body : list Node) : Node :=
  el u "#document" [] [ el (u + 1) "html" [] [ el (u + 2) "body" [] body ] ].

Definition errors_html : Node :=
  doc 100 [ el 121 "div" [("id", "errors")] [ el 122 "p" [] [] ] ].

Definition plain_html : Node :=
  doc 100 [ el 130 "h1" [] [] ].

(** The form returned with its validation state: the name field invalid. *)
Definition invalid_form : Node :=
  el 111 "form" [("action", "/submit"); ("method", "POST")]
    [ el 112 "fieldset" [("enhance-form-group", EmptyString)]
        [ el 113 "label" [("for", "email")] [];
          el 114 "input" [("id", "email"); ("name", "email"); ("type", "email");
                          ("enhance-validate", EmptyString)] [] ];
      el 115 "fieldset" [("enhance-form-group", EmptyString)]
        [ el 116 "label" [("for", "name")] [];
          el 117 "input" [("id", "name"); ("name", "name"); ("type", "text");
                          ("value", "R2"); ("aria-invalid", "true");
                          ("enhance-validate", EmptyString)] [];
          el 119 "p" [] [] ];
      el 118 "button" [("type", "submit")] [] ].

Definition invalid_form_html : Node := doc 100 [ invalid_form ].

Definition response (st : nat) (h : list (string * string)) : Response :=
  mkResponse st false "https://shop.example/submit" h.

(** The page of the demo: the component inside the [main] element that is
    its target. *)
Definition demo_component : Node :=
  el 10 "enhance-form" [("target", "main")] [ readme_form ].

Definition demo_document : Node :=
  el 0 "#document" []
    [ el 1 "html" []
        [ el 2 "body" [] [ el 5 "main" [] [ demo_component ] ] ] ].

Definition demo_world : World :=
  mkWorld [demo_document] "https://shop.example" true [] [] []
    10 (Some 11) "main" "main" [].

Definition success_main : Node := el 105 "main" [] [ el 106 "h1" [] [] ].

Definition success_html : Node := doc 100 [ success_main ].

(** A component without [target] and [fail-target] attributes. *)
Definition bare_document : Node :=
  el 0 "#document" []
    [ el 1 "html" []
        [ el 2 "body" [] [ el 10 "enhance-form" [] [ readme_form ] ] ] ].

Definition bare_page : Page :=
  mkPage [bare_document] "https://shop.example" false.

Definition bare_world : World :=
  mkWorld [bare_document] "https://shop.example" false [] [] []
    10 (Some 11) EmptyString EmptyString [].

(** The README page once a 4XX response without form has been handled. *)
Definition orphan_world : World := set_form None readme_world.

(** The name group of the form with its validation state. *)
Definition invalid_group : Node :=
  el 115 "fieldset" [("enhance-form-group", EmptyString)]
    [ el 116 "label" [("for", "name")] [];
      el 117 "input" [("id", "name"); ("name", "name"); ("type", "text");
                      ("value", "R2"); ("aria-invalid", "true");
                      ("enhance-validate", EmptyString)] [];
      el 119 "p" [] [] ].

End Sample.

(** ** Notions used by the properties *)

(** A computation leaves an observation of the state alone. *)
Definition keeps {X A : Type} (obs : World -> X) (m : Js A) : Prop :=
  forall w, obs (snd (m w)) = obs w.

(** A computation only appends to a list held in the state. *)
Definition grows {X A : Type} (obs : World -> list X) (m : Js A) : Prop :=
  forall w, exists l, obs (snd (m w)) = obs w ++ l.

(** The discriminator headers of the requests sent so far. *)
Definition sent (w : World) : list (string * string) := requests (log w).

(** The observations: the token map with its controllers, the page as the
    user sees it, and the URLs navigated to. *)
Definition tokens (w : World) : list (string * nat) * list AbortController :=
  (controllers w, aborts w).

Definition page_state (w : World)
  : Forest * option nat * list (nat * EventType) :=
  (dom w, _form w, listeners w).

Definition visited (w : World) : list string := navigations (log w).

(** [handleFormValidation]'s loop over the map, on the list of
    controllers. *)
Definition cancel_all (l : list (string * nat)) (a : list AbortController)
  : list AbortController :=
  fold_left (fun a kc => update (snd kc) (mark_aborted None) a) l a.

(** The sanity of the token map: a controller that is still live is the one
    registered under its channel key, and every entry of the map refers to a
    controller created for that key. *)
Definition tokens_ok (w : World) : Prop :=
  (forall i c,
      nth_error (aborts w) i = Some c -> aborted c = false ->
      Map_get (channel c) (controllers w) = Some i)
  /\ (forall k i,
         In (k, i) (controllers w) ->
         exists c, nth_error (aborts w) i = Some c /\ channel c = k).

(** The node [replaceElements] takes as the current one: the override
    itself when there is one, else the first match under the component. *)
Definition currentElement (p : Node -> bool) (root : option nat) (w : World)
  : option nat :=
  match root with
  | Some r => Some r
  | None =>
      match lookup (this w) (dom w) with
      | Some el => option_map uid (querySelector p el)
      | None => None
      end
  end.

(** The world after the 4XX block: the form swapped, adopted and bound. *)
Definition after4XX (k : Ctx) (oldForm newForm : Node) (rest : Forest)
    (pv : Node -> bool) (w : World) : World :=
  set_listeners
    (listeners w ++ (uid newForm, Submit)
     :: map (fun i => (uid i, Blur)) (querySelectorAll pv newForm))
    (set_form (Some (uid newForm))
       (set_dom (plug k newForm :: rest ++ [oldForm]) w)).

(** The README page: the surroundings of the form in the document. *)
Definition readme_context : Ctx :=
  Under 0 "#document" [] []
    (Under 1 "html" [] []
       (Under 2 "body" [] []
          (Top 10 "enhance-form"
             [("target", "#result"); ("fail-target", "#errors")] [] [])
          [ Sample.el 20 "div" [("id", "result")] [];
            Sample.el 21 "div" [("id", "errors")] [] ])
       [])
    [].

(** The surroundings of the component on the README page, of the name
    group inside its form, and of the [main] element on the demo page. *)
Definition readme_component_context : Ctx :=
  Under 0 "#document" [] []
    (Under 1 "html" [] []
       (Top 2 "body" [] []
          [ Sample.el 20 "div" [("id", "result")] [];
            Sample.el 21 "div" [("id", "errors")] [] ])
       [])
    [].

Definition readme_group_context : Ctx :=
  Under 0 "#document" [] []
    (Under 1 "html" [] []
       (Under 2 "body" [] []
          (Under 10 "enhance-form"
             [("target", "#result"); ("fail-target", "#errors")] []
             (Top 11 "form" [("action", "/submit"); ("method", "POST")]
                [ Sample.el 12 "fieldset" [("enhance-form-group", EmptyString)]
                    [ Sample.el 13 "label" [("for", "email")] [];
                      Sample.el 14 "input"
                        [("id", "email"); ("name", "email"); ("type", "email");
                         ("enhance-validate", EmptyString)] [] ] ]
                [ Sample.el 18 "button" [("type", "submit")] [] ])
             [])
          [ Sample.el 20 "div" [("id", "result")] [];
            Sample.el 21 "div" [("id", "errors")] [] ])
       [])
    [].

Definition readme_name_group : Node :=
  Sample.el 15 "fieldset" [("enhance-form-group", EmptyString)]
    [ Sample.el 16 "label" [("for", "name")] [];
      Sample.el 17 "input" [("id", "name"); ("name", "name"); ("type", "text");
                            ("enhance-validate", EmptyString)] [] ].

Definition demo_main_context : Ctx :=
  Under 0 "#document" [] []
    (Under 1 "html" [] [] (Top 2 "body" [] [] []) []) [].

(** A response of a fetch that ended on another origin. *)
Definition external_response : Response :=
  mkResponse 200 true "https://pay.example/checkout" [].

(** The README page with the form of the 422 response in place. *)
Definition rejected_world : World :=
  snd (handleFormValidation_settle Sample.css Sample.origin_of Sample.resolves
         (FetchResolved (Sample.response 422 [])
            (Parsed Sample.invalid_form_html))
         Sample.readme_world).

(** An application callback for the demo handlers: data are numbers, zero
    is refused and anything else redirects. *)
Definition sample_onSubmit (d : nat) (_ : list (string * string))
  : Server.OnSubmitResult unit :=
  match d with
  | 0 => Server.error "Submission failed. Please try again."
  | S _ => Server.redirect "/dietary-form/success"
  end.

(** The surroundings of the [#errors] element on the page whose targets
    are inside the component. *)
Definition inner_errors_context : Ctx :=
  Under 0 "#document" [] []
    (Under 1 "html" [] []
       (Under 2 "body" [] []
          (Top 10 "enhance-form"
             [("target", "#result"); ("fail-target", "#errors")]
             [ Sample.readme_form;
               Sample.el 20 "div" [("id", "result")] [] ]
             [])
          [])
       [])
    [].

(** Response headers with the redirect header only. *)
Definition redirect_to (href : string) : list (string * string) :=
  [(EnhancedHeader.Redirect, href)].

(** * Properties *)

(** ** Computations that leave an observation of the state alone *)

Section Keeps.

Context {X : Type} (obs : World -> X).

Lemma keeps_ret {A} (a : A) : keeps obs (ret a).
Proof. intro w. reflexivity. Qed.

Lemma keeps_throw {A} (e : JsError) : keeps obs (@throw A e).
Proof. intro w. reflexivity. Qed.

Lemma keeps_get : keeps obs get.
Proof. intro w. reflexivity. Qed.

Lemma keeps_lift {A} (c : Completion A) : keeps obs (lift c).
Proof. intro w. reflexivity. Qed.

Lemma keeps_modify (f : World -> World) :
  (forall w, obs (f w) = obs w) -> keeps obs (modify f).
Proof. intros H w. apply H. Qed.

Lemma keeps_bind {A B} (m : Js A) (k : A -> Js B) :
  keeps obs m -> (forall a, keeps obs (k a)) -> keeps obs (bind m k).
Proof.
  intros Hm Hk w. unfold bind. specialize (Hm w).
  destruct (m w) as [[a | e] w']; simpl in *.
  - rewrite Hk. exact Hm.
  - exact Hm.
Qed.

Lemma keeps_try_catch {A} (m : Js A) (h : JsError -> Js A) :
  keeps obs m -> (forall e, keeps obs (h e)) -> keeps obs (try_catch m h).
Proof.
  intros Hm Hh w. unfold try_catch. specialize (Hm w).
  destruct (m w) as [[a | e] w']; simpl in *.
  - exact Hm.
  - rewrite Hh. exact Hm.
Qed.

Lemma keeps_forEach {A} (f : A -> Js unit) (l : list A) :
  (forall a, keeps obs (f a)) -> keeps obs (forEach f l).
Proof.
  intros Hf. induction l as [| x r IH]; simpl.
  - apply keeps_ret.
  - apply keeps_bind; auto.
Qed.

End Keeps.

(** Walk through a computation, leaving the state updates to the caller. *)
Ltac keeps_step :=
  first
    [ apply keeps_ret
    | apply keeps_throw
    | apply keeps_get
    | apply keeps_lift
    | apply keeps_bind; [| intros ]
    | apply keeps_try_catch; [| intros ]
    | apply keeps_forEach; intros
    | match goal with
      | |- keeps _ (match ?x with _ => _ end) => destruct x
      | |- keeps _ (if ?b then _ else _) => destruct b
      end ].

Ltac keeps_all := repeat keeps_step.

(** ** What the parts of the component leave alone *)

Lemma navigations_app (l1 l2 : list Effect) :
  navigations (l1 ++ l2) = navigations l1 ++ navigations l2.
Proof.
  induction l1 as [| e r IH]; simpl; [reflexivity |].
  destruct e; simpl; rewrite IH; reflexivity.
Qed.

Lemma requests_app (l1 l2 : list Effect) :
  requests (l1 ++ l2) = requests l1 ++ requests l2.
Proof.
  induction l1 as [| e r IH]; simpl; [reflexivity |].
  destruct e; simpl; rewrite IH; reflexivity.
Qed.

Ltac unfold_component :=
  unfold submitListener_settle, handleFormValidation_settle,
    handleInputValidation_settle, handleFormValidation_send,
    handleInputValidation_send, abort, register, on4XX, on5XX, on200,
    viewTransition, transitionCallback, replaceTarget, handleRedirect,
    assign, focusFirstInvalidInput, connectedCallback, bindEvents,
    replaceElements, this_querySelector, this_closest, querySelector_of,
    requestForm_settle, requestForm_send, form_ref, compile, warn,
    addEventListener, emit;
  cbv zeta.

(** Close the state updates left by [keeps_all]. *)
Ltac keeps_updates :=
  try (apply keeps_modify; intros; unfold tokens, page_state, visited; simpl;
       try rewrite navigations_app; simpl; try rewrite app_nil_r;
       reflexivity).

Ltac keeps_auto := unfold_component; keeps_all; keeps_updates.

Section Frames.

Variable css : string -> option (Node -> bool).
Variable origin_of : string -> option string.
Variable resolves : string -> bool.

Lemma replaceElements_keeps_tokens html selector root :
  keeps tokens (replaceElements css html selector root).
Proof. keeps_auto. Qed.

Lemma bindEvents_keeps_tokens target : keeps tokens (bindEvents css target).
Proof. keeps_auto. Qed.

Lemma connectedCallback_keeps_tokens : keeps tokens (connectedCallback css).
Proof. keeps_auto. Qed.

Lemma blur_settle_keeps_tokens target s :
  keeps tokens (handleInputValidation_settle css origin_of target s).
Proof. keeps_auto. Qed.

Lemma submit_settle_keeps_tokens s :
  keeps tokens (submitListener_settle css origin_of resolves s).
Proof. keeps_auto. Qed.

Lemma transition_keeps_tokens html target :
  keeps tokens (transitionCallback css html target).
Proof. keeps_auto. Qed.

(** The status blocks never navigate. *)
Lemma on4XX_keeps_visited response html :
  keeps visited (on4XX css response html).
Proof. keeps_auto. Qed.

Lemma on5XX_keeps_visited response html :
  keeps visited (on5XX css response html).
Proof. keeps_auto. Qed.

Lemma on200_keeps_visited response html :
  keeps visited (on200 css response html).
Proof. keeps_auto. Qed.

End Frames.

(** ** Response handling *)

Section Responses.

Variable css : string -> option (Node -> bool).
Variable origin_of : string -> option string.
Variable resolves : string -> bool.

Lemma try_catch_bind_normal {A B} (m : Js A) (k : A -> Js B) h w a w1 :
  m w = (Normal a, w1) ->
  try_catch (bind m k) h w = try_catch (k a) h w1.
Proof. intro H. unfold try_catch, bind. rewrite H. reflexivity. Qed.

Lemma try_catch_bind_throw {A B} (m : Js A) (k : A -> Js B) h w e w1 :
  m w = (Throw e, w1) ->
  try_catch (bind m k) h w = h e w1.
Proof. intro H. unfold try_catch, bind. rewrite H. reflexivity. Qed.

Lemma try_catch_warn_normal (m : Js unit) w :
  fst (try_catch m (warn tt) w) = Normal tt.
Proof.
  unfold try_catch. destruct (m w) as [[[] | e] w']; reflexivity.
Qed.

Lemma getHeader_without_header name response :
  getHeader (without_header name response) name = None.
Proof.
  unfold getHeader, without_header, Server.header, Server.header_values.
  simpl headers.
  replace (filter _ (filter _ (headers response))) with (@nil (string * string));
    [reflexivity |].
  induction (headers response) as [| [k v] r IH]; simpl; [reflexivity |].
  destruct (String.eqb (Server.lowercase k) (Server.lowercase name)) eqn:E;
    simpl; [exact IH |].
  rewrite E. exact IH.
Qed.

Lemma status_blocks_keep_visited response html :
  keeps visited
    (on4XX css response html ;; on5XX css response html ;;
     on200 css response html).
Proof.
  apply keeps_bind; [apply on4XX_keeps_visited | intros _].
  apply keeps_bind; [apply on5XX_keeps_visited | intros _].
  apply on200_keeps_visited.
Qed.

Lemma after_redirect_keeps_visited response (html : option Node) :
  keeps visited
    (try_catch
       match html with
       | None => ret tt
       | Some h =>
           on4XX css response h ;; on5XX css response h ;;
           on200 css response h
       end (warn tt)).
Proof.
  apply keeps_try_catch.
  - destruct html; [apply status_blocks_keep_visited | apply keeps_ret].
  - intros e. keeps_auto.
Qed.

(** C1, as amended: when the response that [requestForm] hands back
    carries the redirect header with a non-empty value, the handler calls
    [window.location.assign] with exactly that value, once, whatever the
    status code is: the calls after the handler are those of [requestForm]
    followed by the one with the header's value (the value
    [response.headers.get] gives: the header is found whatever the case of
    its name, and repeated headers are joined). *)
Theorem redirect_header_navigates :
  forall (s : Settlement) (w w1 : World) (response : Response)
         (html : option Node) (href : string),
    requestForm_settle origin_of s w = (Normal (response, html), w1) ->
    getHeader response EnhancedHeader.Redirect = Some href ->
    href <> EmptyString ->
    visited (snd (handleFormValidation_settle css origin_of resolves s w))
    = visited w1 ++ [href].
Proof.
  intros s w w1 response html href Hreq Hhdr Hne.
  unfold handleFormValidation_settle.
  rewrite (try_catch_bind_normal _ _ _ _ _ _ Hreq).
  cbv zeta. simpl fst. simpl snd. rewrite Hhdr.
  set (w2 := set_log (log w1 ++ [LocationAssign href]) w1).
  assert (Hv2 : visited w2 = visited w1 ++ [href]).
  { unfold visited, w2; simpl. rewrite navigations_app. reflexivity. }
  destruct (resolves href) eqn:Hurl.
  - assert (Hred : handleRedirect resolves response w1 = (Normal tt, w2)).
    { unfold handleRedirect, assign, bind, emit, modify, ret. rewrite Hhdr.
      destruct href as [| c r]; [contradiction |].
      simpl. simpl in Hurl. rewrite Hurl. reflexivity. }
    rewrite (try_catch_bind_normal _ _ _ _ _ _ Hred).
    rewrite (after_redirect_keeps_visited response html). exact Hv2.
  - assert (Hred : handleRedirect resolves response w1
                   = (Throw (SyntaxError href), w2)).
    { unfold handleRedirect, assign, bind, emit, modify, throw.
      rewrite Hhdr. destruct href as [| c r]; [contradiction |].
      simpl. simpl in Hurl. rewrite Hurl. reflexivity. }
    rewrite (try_catch_bind_throw _ _ _ _ _ _ Hred).
    unfold warn, bind, emit, modify, ret. cbv beta iota delta [snd].
    rewrite <- Hv2. unfold visited. simpl log.
    rewrite navigations_app. simpl. rewrite app_nil_r. reflexivity.
Qed.

(** C10, as amended: a redirect header whose value is the empty string
    passes the [!== null] test, the redirect handler returns without
    navigating, and the handler goes on exactly as for the same response
    without the header; the only navigation there can be is the one
    [requestForm] makes itself when the fetch was redirected to another
    origin. *)
Theorem empty_redirect_header_is_ignored :
  forall (response : Response) (body : Body) (w : World),
    getHeader response EnhancedHeader.Redirect = Some EmptyString ->
    handleRedirect resolves response w = (Normal tt, w)
    /\ handleFormValidation_settle css origin_of resolves
         (FetchResolved response body) w
       = handleFormValidation_settle css origin_of resolves
           (FetchResolved (without_header EnhancedHeader.Redirect response)
              body) w
    /\ visited (snd (handleFormValidation_settle css origin_of resolves
                       (FetchResolved response body) w))
       = visited w
         ++ (if redirected response
                && negb (isInternalUrl origin_of w (url response))
             then [url response] else []).
Proof.
  intros response body w Hhdr.
  assert (Hred : forall w', handleRedirect resolves response w'
                            = (Normal tt, w')).
  { intro w'. unfold handleRedirect. rewrite Hhdr. reflexivity. }
  split; [apply Hred |]. split.
  - unfold handleFormValidation_settle, requestForm_settle, try_catch, bind.
    simpl.
    destruct (redirected response
              && negb (isInternalUrl origin_of w (url response))); simpl.
    + rewrite Hhdr, getHeader_without_header, Hred. reflexivity.
    + destruct body as [e | html]; simpl; [reflexivity |].
      rewrite Hhdr, getHeader_without_header, Hred. reflexivity.
  - unfold handleFormValidation_settle, requestForm_settle.
    destruct (redirected response
              && negb (isInternalUrl origin_of w (url response))) eqn:Hext.
    + unfold try_catch, bind, get, emit, modify, ret. rewrite Hext.
      simpl. rewrite Hhdr, Hred. unfold visited; simpl.
      rewrite navigations_app. reflexivity.
    + rewrite app_nil_r. destruct body as [e | html].
      * unfold try_catch, bind; simpl. rewrite Hext; simpl.
        unfold visited; simpl. rewrite navigations_app, app_nil_r.
        reflexivity.
      * assert (Hreq : (w0 <- get ;;
                        if redirected response
                           && negb (isInternalUrl origin_of w0 (url response))
                        then emit (LocationAssign (url response)) ;;
                             ret (response, @None Node)
                        else ret (response, Some html)) w
                       = (Normal (response, Some html), w)).
        { unfold bind, get. rewrite Hext. reflexivity. }
        rewrite (try_catch_bind_normal _ _ _ _ _ _ Hreq).
        cbv zeta. simpl fst. simpl snd. rewrite Hhdr.
        rewrite (try_catch_bind_normal _ _ _ _ _ _ (Hred w)).
        apply (after_redirect_keeps_visited response (Some html)).
Qed.

End Responses.

(** ** Failures *)

Section Failures.

Variable css : string -> option (Node -> bool).
Variable origin_of : string -> option string.
Variable resolves : string -> bool.

Lemma blur_send_keeps_page target :
  keeps page_state (handleInputValidation_send target).
Proof. keeps_auto. Qed.

Lemma submit_send_keeps_page : keeps page_state handleFormValidation_send.
Proof. keeps_auto. Qed.

Lemma blur_send_keeps_origin target :
  keeps origin (handleInputValidation_send target).
Proof. keeps_auto. Qed.

Lemma submit_send_keeps_origin : keeps origin handleFormValidation_send.
Proof. keeps_auto. Qed.

Lemma failure_origin w w' s :
  origin w' = origin w -> failure origin_of w' s = failure origin_of w s.
Proof.
  intro H. unfold failure, isInternalUrl. rewrite H. reflexivity.
Qed.

(** A failing settlement makes [requestForm] throw, with the state as it
    was. *)
Lemma requestForm_settle_failure s w e :
  failure origin_of w s = Some e ->
  requestForm_settle origin_of s w = (Throw e, w).
Proof.
  unfold failure, requestForm_settle. destruct s as [e' | response body].
  - intro H. injection H as ->. reflexivity.
  - unfold bind, get.
    destruct body as [e' | html]; [| discriminate].
    destruct (redirected response
              && negb (isInternalUrl origin_of w (url response)));
      [discriminate |].
    intro H. injection H as ->. reflexivity.
Qed.

Lemma blur_settle_failure target s w e :
  failure origin_of w s = Some e ->
  handleInputValidation_settle css origin_of target s w
  = (Normal tt, set_log (log w ++ [ConsoleWarn e]) w).
Proof.
  intro H. unfold handleInputValidation_settle.
  rewrite (try_catch_bind_throw _ _ _ _ _ _ (requestForm_settle_failure _ _ _ H)).
  reflexivity.
Qed.

Lemma submit_settle_failure s w e :
  failure origin_of w s = Some e ->
  handleFormValidation_settle css origin_of resolves s w
  = (Normal tt, set_log (log w ++ [ConsoleWarn e]) w).
Proof.
  intro H. unfold handleFormValidation_settle.
  rewrite (try_catch_bind_throw _ _ _ _ _ _ (requestForm_settle_failure _ _ _ H)).
  reflexivity.
Qed.

Lemma blur_send_normal target w :
  exists sent, fst (handleInputValidation_send target w) = Normal sent.
Proof.
  unfold handleInputValidation_send.
  destruct (value target); [exists false; reflexivity |].
  unfold bind at 1. unfold get at 1.
  set (cancel := match Map_get (name target) (controllers w) with
            | Some c => abort c (Some "Aborted by user")
            | None => ret tt
            end).
  assert (Ha : exists w1, cancel w = (Normal tt, w1)).
  { subst cancel. destruct (Map_get (name target) (controllers w));
      eexists; reflexivity. }
  destruct Ha as [w1 Ha]. unfold bind at 1. rewrite Ha.
  unfold bind at 1. unfold register at 1. unfold modify at 1.
  unfold bind at 1. unfold get at 1.
  unfold try_catch.
  match goal with
  | |- context [match ?m ?x with _ => _ end] => destruct (m x) as [[b | e] w2]
  end; eexists; reflexivity.
Qed.

Lemma submit_send_normal w :
  exists sent, fst (handleFormValidation_send w) = Normal sent.
Proof.
  unfold handleFormValidation_send.
  unfold bind at 1. unfold emit at 1. unfold modify at 1.
  unfold try_catch.
  match goal with
  | |- context [match ?m ?x with _ => _ end] => destruct (m x) as [[b | e] w2]
  end; eexists; reflexivity.
Qed.

(** C8: neither handler ever throws to its caller; a failure of the
    request (the fetch rejects on a network failure or a cancellation, or the
    body cannot be read) is caught, logged with [console.warn], and the
    error path writes nothing else: document, form reference and listeners
    are as before. *)
Theorem failures_are_caught_and_logged :
  (forall target s w,
      fst (handleInputValidation css origin_of target s w) = Normal tt)
  /\ (forall s w, fst (handleFormValidation css origin_of resolves s w) = Normal tt)
  /\ (forall target s w e,
         failure origin_of w s = Some e ->
         handleInputValidation_settle css origin_of target s w
         = (Normal tt, set_log (log w ++ [ConsoleWarn e]) w))
  /\ (forall s w e,
         failure origin_of w s = Some e ->
         handleFormValidation_settle css origin_of resolves s w
         = (Normal tt, set_log (log w ++ [ConsoleWarn e]) w))
  /\ (forall target s w e,
         failure origin_of w s = Some e ->
         page_state (snd (handleInputValidation css origin_of target s w))
         = page_state w)
  /\ (forall s w e,
         failure origin_of w s = Some e ->
         page_state (snd (handleFormValidation css origin_of resolves s w))
         = page_state w).
Proof.
  repeat split.
  - intros target s w. unfold handleInputValidation, bind.
    destruct (blur_send_normal target w) as [sent H].
    destruct (handleInputValidation_send target w) as [r w1].
    simpl in H. subst r. destruct sent; [| reflexivity].
    apply try_catch_warn_normal.
  - intros s w. unfold handleFormValidation, bind.
    destruct (submit_send_normal w) as [sent H].
    destruct (handleFormValidation_send w) as [r w1].
    simpl in H. subst r. destruct sent; [| reflexivity].
    apply try_catch_warn_normal.
  - intros target s w e. apply blur_settle_failure.
  - intros s w e. apply submit_settle_failure.
  - intros target s w e H. unfold handleInputValidation, bind.
    pose proof (blur_send_keeps_page target w) as Hp.
    pose proof (blur_send_keeps_origin target w) as Ho.
    destruct (handleInputValidation_send target w) as [[sent | e'] w1];
      simpl in *; [| exact Hp].
    destruct sent; [| exact Hp].
    rewrite (blur_settle_failure target s w1 e).
    + simpl. exact Hp.
    + rewrite (failure_origin w w1 s Ho). exact H.
  - intros s w e H. unfold handleFormValidation, bind.
    pose proof (submit_send_keeps_page w) as Hp.
    pose proof (submit_send_keeps_origin w) as Ho.
    destruct (handleFormValidation_send w) as [[sent | e'] w1];
      simpl in *; [| exact Hp].
    destruct sent; [| exact Hp].
    rewrite (submit_settle_failure s w1 e).
    + simpl. exact Hp.
    + rewrite (failure_origin w w1 s Ho). exact H.
Qed.

(** C9: a blur on a field whose value is the empty string returns at
    once: no request is issued and nothing changes, the controller map
    included. *)
Theorem blur_on_empty_field_is_ignored :
  forall (field : string) (s : Settlement) (w : World),
    handleInputValidation_send (mkInput field EmptyString) w
    = (Normal false, w)
    /\ handleInputValidation css origin_of (mkInput field EmptyString) s w
       = (Normal tt, w)
    /\ step css origin_of resolves (BlurSent (mkInput field EmptyString)) w = w
    /\ requests
         (log (snd (handleInputValidation css origin_of
                      (mkInput field EmptyString) s w)))
       = requests (log w)
    /\ tokens
         (snd (handleInputValidation css origin_of
                 (mkInput field EmptyString) s w))
       = tokens w.
Proof.
  intros field s w. repeat split.
Qed.

End Failures.

(** ** Cancellation tokens *)

Lemma nth_error_update {A} (f : A -> A) (l : list A) (i j : nat) :
  nth_error (update i f l) j
  = if Nat.eqb j i then option_map f (nth_error l j) else nth_error l j.
Proof.
  revert i j. induction l as [| x r IH]; intros i j.
  - simpl. destruct j; destruct (Nat.eqb _ i); reflexivity.
  - destruct i as [| i]; destruct j as [| j]; simpl; try reflexivity.
    apply IH.
Qed.

Lemma length_update {A} (f : A -> A) (l : list A) (i : nat) :
  length (update i f l) = length l.
Proof.
  revert i. induction l as [| x r IH]; intros [| i]; simpl; auto.
Qed.

Lemma Map_get_set_same k v m : Map_get k (Map_set k v m) = Some v.
Proof.
  induction m as [| [k' v'] r IH]; simpl.
  - rewrite String.eqb_refl. reflexivity.
  - destruct (String.eqb k' k) eqn:E; simpl.
    + rewrite String.eqb_refl. reflexivity.
    + rewrite E. exact IH.
Qed.

Lemma Map_get_set_other k k' v m :
  k' <> k -> Map_get k' (Map_set k v m) = Map_get k' m.
Proof.
  intro Hne. induction m as [| [k0 v0] r IH]; simpl.
  - destruct (String.eqb k k') eqn:E; [| reflexivity].
    apply String.eqb_eq in E. congruence.
  - destruct (String.eqb k0 k) eqn:E; simpl.
    + apply String.eqb_eq in E. subst k0.
      destruct (String.eqb k k') eqn:E'; [| reflexivity].
      apply String.eqb_eq in E'. congruence.
    + rewrite IH. reflexivity.
Qed.

Lemma Map_get_In k v m : Map_get k m = Some v -> In (k, v) m.
Proof.
  induction m as [| [k' v'] r IH]; simpl; [discriminate |].
  destruct (String.eqb k' k) eqn:E.
  - apply String.eqb_eq in E. intro H. injection H as ->. subst. now left.
  - intro H. right. auto.
Qed.

Lemma In_Map_set k v m x :
  In x (Map_set k v m) -> x = (k, v) \/ In x m.
Proof.
  induction m as [| [k' v'] r IH]; simpl.
  - intros [H | []]. now left.
  - destruct (String.eqb k' k); simpl.
    + intros [H | H]; [now left | right; now right].
    + intros [H | H]; [right; now left |].
      destruct (IH H); [now left | right; now right].
Qed.

Lemma mark_aborted_channel why c : channel (mark_aborted why c) = channel c.
Proof. unfold mark_aborted. destruct (aborted c); reflexivity. Qed.

Lemma mark_aborted_aborted why c : aborted (mark_aborted why c) = true.
Proof. unfold mark_aborted. destruct (aborted c) eqn:E; [exact E | reflexivity]. Qed.

Lemma mark_aborted_live why c :
  aborted (mark_aborted why c) = false -> False.
Proof. rewrite mark_aborted_aborted. discriminate. Qed.

(** Aborting any controller keeps the map sane. *)
Lemma tokens_ok_update w c why a m :
  tokens_ok w ->
  a = update c (mark_aborted why) (aborts w) -> m = controllers w ->
  forall w', aborts w' = a -> controllers w' = m -> tokens_ok w'.
Proof.
  intros [HA HB] -> -> w' Ha Hm. split.
  - intros i x Hn Hlive. rewrite Ha, nth_error_update in Hn. rewrite Hm.
    destruct (Nat.eqb i c).
    + destruct (nth_error (aborts w) i) as [y |]; [| discriminate].
      injection Hn as <-. exfalso. eapply mark_aborted_live; eauto.
    + auto.
  - intros k i Hin. rewrite Hm in Hin. destruct (HB k i Hin) as [x [Hn Hc]].
    rewrite Ha, nth_error_update, Hn.
    destruct (Nat.eqb i c); simpl; eexists; split; eauto.
    rewrite mark_aborted_channel. exact Hc.
Qed.

(** Registering a fresh controller under a key none of whose controllers is
    live keeps the map sane. *)
Lemma tokens_ok_register w key :
  tokens_ok w ->
  (forall i c, nth_error (aborts w) i = Some c -> aborted c = false ->
               channel c <> key) ->
  forall w',
    aborts w' = aborts w ++ [mkController key false None] ->
    controllers w' = Map_set key (length (aborts w)) (controllers w) ->
    tokens_ok w'.
Proof.
  intros [HA HB] Hfree w' Ha Hm. split.
  - intros i c Hn Hlive. rewrite Ha in Hn. rewrite Hm.
    destruct (Nat.lt_ge_cases i (length (aborts w))) as [Hlt | Hge].
    + rewrite nth_error_app1 in Hn by exact Hlt.
      rewrite Map_get_set_other by (eapply Hfree; eauto). auto.
    + rewrite nth_error_app2 in Hn by exact Hge.
      destruct (i - length (aborts w)) as [| d] eqn:E.
      * simpl in Hn. injection Hn as <-. simpl.
        replace i with (length (aborts w)) by lia.
        apply Map_get_set_same.
      * simpl in Hn. destruct d; discriminate.
  - intros k i Hin. rewrite Hm in Hin. rewrite Ha.
    destruct (In_Map_set _ _ _ _ Hin) as [H | H].
    + injection H as -> ->. exists (mkController key false None). split.
      * rewrite nth_error_app2 by lia. rewrite Nat.sub_diag. reflexivity.
      * reflexivity.
    + destruct (HB k i H) as [c [Hn Hc]]. exists c. split; [| exact Hc].
      rewrite nth_error_app1; [exact Hn |].
      apply nth_error_Some. rewrite Hn. discriminate.
Qed.

Lemma tokens_ok_same w w' : tokens w' = tokens w -> tokens_ok w -> tokens_ok w'.
Proof.
  unfold tokens, tokens_ok. intros H. injection H as Hc Ha.
  rewrite Hc, Ha. auto.
Qed.

Section Tokens.

Variable css : string -> option (Node -> bool).
Variable origin_of : string -> option string.
Variable resolves : string -> bool.

(** What a blur on a non-empty field does before its [await]. *)
Lemma blur_sent_run (t : HTMLInputElement) (w : World) :
  value t <> EmptyString ->
  controllers (step css origin_of resolves (BlurSent t) w)
  = Map_set (name t) (length (aborts w)) (controllers w)
  /\ aborts (step css origin_of resolves (BlurSent t) w)
     = match Map_get (name t) (controllers w) with
       | Some c => update c (mark_aborted (Some "Aborted by user")) (aborts w)
       | None => aborts w
       end ++ [mkController (name t) false None]
  /\ log (step css origin_of resolves (BlurSent t) w)
     = log w
       ++ match Map_get (name t) (controllers w) with
          | Some c => [Abort c (Some "Aborted by user")]
          | None => []
          end
       ++ match addHeader EnhancedHeader.Validate (name t) with
          | Normal h =>
              match _form w with
              | Some f => [Fetch f h (Some (length (aborts w)))]
              | None => [ConsoleWarn TypeError]
              end
          | Throw e => [ConsoleWarn e]
          end
  /\ _form (step css origin_of resolves (BlurSent t) w) = _form w.
Proof.
  intro Hv. unfold step, handleInputValidation_send.
  destruct (value t) as [| a v]; [contradiction |].
  unfold bind, get, abort, register, requestForm_send, form_ref, try_catch,
    warn, emit, modify, lift, bind, ret, throw.
  destruct (addHeader EnhancedHeader.Validate (name t)) as [h | e];
    destruct (Map_get (name t) (controllers w)) as [c |]; simpl;
    destruct (_form w) as [f |] eqn:Ef; simpl; rewrite ?Ef; simpl;
    rewrite ?length_update, ?Map_get_set_same, ?app_nil_r, <- ?app_assoc;
    repeat split; reflexivity.
Qed.

Lemma cancel_loop (l : list (string * nat)) (w : World) :
  forEach (fun kc => abort (snd kc) None) l w
  = (Normal tt,
     set_aborts (cancel_all l (aborts w))
       (set_log (log w ++ map (fun kc => Abort (snd kc) None) l) w)).
Proof.
  revert w. induction l as [| kc l IH]; intro w.
  - simpl. rewrite app_nil_r. destruct w; reflexivity.
  - simpl forEach. unfold bind at 1.
    unfold abort, emit, modify, bind. simpl. rewrite IH. simpl.
    unfold set_aborts, set_log; simpl. rewrite <- app_assoc. reflexivity.
Qed.

Lemma length_cancel_all l a : length (cancel_all l a) = length a.
Proof.
  revert a. induction l as [| kc l IH]; intro a; simpl; [reflexivity |].
  unfold cancel_all in *. simpl. rewrite IH. apply length_update.
Qed.

Lemma mark_aborted_twice why c :
  mark_aborted why (mark_aborted why c) = mark_aborted why c.
Proof.
  unfold mark_aborted at 1. rewrite mark_aborted_aborted. reflexivity.
Qed.

(** The loop aborts exactly the controllers listed in the map. *)
Lemma nth_error_cancel_all l a i :
  nth_error (cancel_all l a) i
  = option_map
      (fun c => if existsb (Nat.eqb i) (map snd l)
                then mark_aborted None c else c)
      (nth_error a i).
Proof.
  revert a. induction l as [| [k c] l IH]; intro a.
  - simpl. destruct (nth_error a i); reflexivity.
  - change (cancel_all ((k, c) :: l) a)
      with (cancel_all l (update c (mark_aborted None) a)).
    rewrite IH, nth_error_update. simpl.
    destruct (Nat.eqb i c) eqn:E; simpl.
    + destruct (nth_error a i) as [x |]; simpl; [| reflexivity].
      destruct (existsb (Nat.eqb i) (map snd l));
        [rewrite mark_aborted_twice |]; reflexivity.
    + reflexivity.
Qed.

(** What a submit does before its [await]. *)
Lemma submit_send_eq (w : World) :
  handleFormValidation_send w
  = let w1 :=
      set_controllers (Map_set "form" (length (aborts w)) (controllers w))
        (set_aborts
           (cancel_all (controllers w) (aborts w)
            ++ [mkController "form" false None])
           (set_log
              (log w ++ [PreventDefault]
               ++ map (fun kc => Abort (snd kc) None) (controllers w)) w)) in
    match _form w with
    | Some f =>
        (Normal true,
         set_log
           (log w1 ++ [Fetch f (EnhancedHeader.Submit, "form")
                         (Some (length (aborts w)))]) w1)
    | None => (Normal false, set_log (log w1 ++ [ConsoleWarn TypeError]) w1)
    end.
Proof.
  unfold handleFormValidation_send.
  unfold bind at 1. unfold emit at 1. unfold modify at 1.
  unfold try_catch. unfold bind at 1. unfold get at 1.
  unfold bind at 1. simpl controllers. rewrite cancel_loop.
  change (addHeader EnhancedHeader.Submit "form")
    with (@Normal (string * string) (EnhancedHeader.Submit, "form")).
  unfold register, requestForm_send, form_ref, warn, emit, lift.
  unfold bind, get, modify, ret, throw.
  simpl.
  destruct (_form w) as [f |] eqn:Ef; simpl; rewrite ?Ef; simpl;
    rewrite ?length_cancel_all, ?Map_get_set_same, <- ?app_assoc;
    reflexivity.
Qed.

Lemma submit_sent_run (w : World) :
  controllers (step css origin_of resolves SubmitSent w)
  = Map_set "form" (length (aborts w)) (controllers w)
  /\ aborts (step css origin_of resolves SubmitSent w)
     = cancel_all (controllers w) (aborts w)
       ++ [mkController "form" false None]
  /\ log (step css origin_of resolves SubmitSent w)
     = log w ++ [PreventDefault]
       ++ map (fun kc => Abort (snd kc) None) (controllers w)
       ++ match _form w with
          | Some f =>
              [Fetch f (EnhancedHeader.Submit, "form")
                 (Some (length (aborts w)))]
          | None => [ConsoleWarn TypeError]
          end
  /\ _form (step css origin_of resolves SubmitSent w) = _form w.
Proof.
  unfold step. rewrite submit_send_eq. cbv zeta.
  destruct (_form w) as [f |] eqn:Ef; simpl; rewrite ?Ef;
    rewrite <- ?app_assoc; repeat split; reflexivity.
Qed.

Lemma existsb_snd_In (l : list (string * nat)) k i :
  In (k, i) l -> existsb (Nat.eqb i) (map snd l) = true.
Proof.
  intro H. apply existsb_exists. exists i. split.
  - apply in_map_iff. exists (k, i). split; [reflexivity | exact H].
  - apply Nat.eqb_refl.
Qed.

(** After the loop of a submit no controller is live. *)
Lemma cancel_all_none_live w i c :
  tokens_ok w ->
  nth_error (cancel_all (controllers w) (aborts w)) i = Some c ->
  aborted c = true.
Proof.
  intros [HA _] Hn. rewrite nth_error_cancel_all in Hn.
  destruct (nth_error (aborts w) i) as [x |] eqn:Ex; [| discriminate].
  simpl in Hn. injection Hn as <-.
  destruct (aborted x) eqn:Eab.
  - destruct (existsb _ _); [| exact Eab].
    apply mark_aborted_aborted.
  - rewrite (existsb_snd_In _ (channel x) i).
    + apply mark_aborted_aborted.
    + apply Map_get_In. apply HA; assumption.
Qed.

Lemma tokens_ok_cancel_all w w1 :
  tokens_ok w ->
  aborts w1 = cancel_all (controllers w) (aborts w) ->
  controllers w1 = controllers w ->
  tokens_ok w1.
Proof.
  intros Hok Ha Hm. split.
  - intros i c Hn Hlive. rewrite Ha in Hn.
    rewrite (cancel_all_none_live w i c Hok Hn) in Hlive. discriminate.
  - intros k i Hin. rewrite Hm in Hin. destruct Hok as [_ HB].
    destruct (HB k i Hin) as [c [Hn Hc]].
    rewrite Ha, nth_error_cancel_all, Hn. simpl.
    eexists. split; [reflexivity |].
    destruct (existsb _ _); [rewrite mark_aborted_channel |]; exact Hc.
Qed.

(** After the cancellation at the start of a blur no live controller is
    left for the field. *)
Lemma blur_frees_channel w key i c :
  tokens_ok w ->
  nth_error
    match Map_get key (controllers w) with
    | Some c0 => update c0 (mark_aborted (Some "Aborted by user")) (aborts w)
    | None => aborts w
    end i = Some c ->
  aborted c = false -> channel c <> key.
Proof.
  intros [HA _] Hn Hlive Hkey.
  destruct (Map_get key (controllers w)) as [c0 |] eqn:Eg.
  - rewrite nth_error_update in Hn.
    destruct (Nat.eqb i c0) eqn:E.
    + destruct (nth_error (aborts w) i); [| discriminate].
      injection Hn as <-. eapply mark_aborted_live; eauto.
    + pose proof (HA i c Hn Hlive) as H. rewrite Hkey, Eg in H.
      injection H as ->. rewrite Nat.eqb_refl in E. discriminate.
  - pose proof (HA i c Hn Hlive) as H. rewrite Hkey, Eg in H. discriminate.
Qed.

Lemma tokens_ok_step st w :
  tokens_ok w -> tokens_ok (step css origin_of resolves st w).
Proof.
  intro Hok. destruct st as [| t | t s | | s | html target].
  - apply (tokens_ok_same w); [| exact Hok].
    apply connectedCallback_keeps_tokens.
  - destruct (value t) as [| a v] eqn:Ev.
    + unfold step, handleInputValidation_send. rewrite Ev. exact Hok.
    + assert (Hv : value t <> EmptyString) by (rewrite Ev; discriminate).
      destruct (blur_sent_run t w Hv) as [Hm [Ha _]].
      set (a1 := match Map_get (name t) (controllers w) with
                 | Some c => update c (mark_aborted (Some "Aborted by user"))
                               (aborts w)
                 | None => aborts w
                 end) in *.
      assert (Hlen : length a1 = length (aborts w)).
      { subst a1. destruct (Map_get _ _); [apply length_update | reflexivity]. }
      assert (Hok1 : tokens_ok (set_aborts a1 w)).
      { subst a1. destruct (Map_get (name t) (controllers w)) as [c |].
        - eapply (tokens_ok_update w c); eauto; reflexivity.
        - destruct w; exact Hok. }
      apply (tokens_ok_register (set_aborts a1 w) (name t) Hok1).
      * intros i c Hn Hlive. simpl in Hn. subst a1.
        eapply (blur_frees_channel w); eauto.
      * simpl. exact Ha.
      * simpl. rewrite Hlen. exact Hm.
  - apply (tokens_ok_same w); [| exact Hok].
    apply blur_settle_keeps_tokens.
  - destruct (submit_sent_run w) as [Hm [Ha _]].
    set (a1 := cancel_all (controllers w) (aborts w)) in *.
    assert (Hok1 : tokens_ok (set_aborts a1 w)).
    { apply (tokens_ok_cancel_all w); auto. }
    apply (tokens_ok_register (set_aborts a1 w) "form" Hok1).
    + intros i c Hn Hlive. simpl in Hn. subst a1.
      rewrite (cancel_all_none_live w i c Hok Hn) in Hlive. discriminate.
    + simpl. exact Ha.
    + simpl. subst a1. rewrite length_cancel_all. exact Hm.
  - apply (tokens_ok_same w); [| exact Hok].
    apply submit_settle_keeps_tokens.
  - apply (tokens_ok_same w); [| exact Hok].
    apply transition_keeps_tokens.
Qed.

Lemma constructor_tokens page self w :
  constructor css page self = Normal w ->
  aborts w = [] /\ controllers w = [].
Proof.
  unfold constructor.
  destruct (lookup self (page_dom page)); [| discriminate].
  destruct (css "form"); [| discriminate].
  destruct (querySelector _ _); [| discriminate].
  intro H. injection H as <-. split; reflexivity.
Qed.

Lemma reachable_tokens_ok w : reachable css origin_of resolves w -> tokens_ok w.
Proof.
  induction 1 as [page self w H | st w _ IH].
  - destruct (constructor_tokens _ _ _ H) as [Ha Hm]. split.
    + intros i c Hn. rewrite Ha in Hn. destruct i; discriminate.
    + intros k i Hin. rewrite Hm in Hin. destruct Hin.
  - apply tokens_ok_step. exact IH.
Qed.

Lemma reachable_steps l w :
  reachable css origin_of resolves w -> reachable css origin_of resolves (steps css origin_of resolves l w).
Proof.
  revert w. induction l as [| st l IH]; intros w H; simpl; [exact H |].
  apply IH. apply reach_step. exact H.
Qed.

Lemma live_tokens_In key w c :
  In c (live_tokens key w) <->
  exists a, nth_error (aborts w) c = Some a
            /\ aborted a = false /\ channel a = key.
Proof.
  unfold live_tokens. rewrite filter_In. split.
  - intros [_ H]. destruct (nth_error (aborts w) c) as [a |]; [| discriminate].
    apply andb_true_iff in H. destruct H as [H1 H2].
    exists a. repeat split.
    + destruct (aborted a); [discriminate | reflexivity].
    + apply String.eqb_eq. exact H2.
  - intros [a [Hn [Hl Hc]]]. split.
    + apply in_seq. split; [lia |]. simpl.
      apply nth_error_Some. rewrite Hn. discriminate.
    + rewrite Hn, Hl, Hc. simpl. apply String.eqb_refl.
Qed.

Lemma live_tokens_NoDup key w : NoDup (live_tokens key w).
Proof. apply NoDup_filter. apply seq_NoDup. Qed.

Lemma live_tokens_registered key w c :
  tokens_ok w -> In c (live_tokens key w) ->
  Map_get key (controllers w) = Some c.
Proof.
  intros [HA _] H. apply live_tokens_In in H.
  destruct H as [a [Hn [Hl Hc]]]. rewrite <- Hc. apply HA; assumption.
Qed.

Lemma at_most_one_live key w :
  tokens_ok w -> length (live_tokens key w) <= 1.
Proof.
  intro Hok. pose proof (live_tokens_NoDup key w) as Hnd.
  pose proof (live_tokens_registered key w) as Hreg.
  destruct (live_tokens key w) as [| x [| y l]]; simpl; try lia.
  exfalso.
  assert (Hx : Map_get key (controllers w) = Some x)
    by (apply Hreg; [exact Hok | now left]).
  assert (Hy : Map_get key (controllers w) = Some y)
    by (apply Hreg; [exact Hok | right; now left]).
  rewrite Hx in Hy. injection Hy as ->.
  inversion Hnd as [| ? ? Hnotin _]. apply Hnotin. now left.
Qed.

Lemma live_tokens_single key w c :
  tokens_ok w -> In c (live_tokens key w) -> live_tokens key w = [c].
Proof.
  intros Hok Hin. pose proof (at_most_one_live key w Hok) as Hlen.
  destruct (live_tokens key w) as [| x [| y l]]; simpl in *.
  - destruct Hin.
  - destruct Hin as [-> | []]. reflexivity.
  - lia.
Qed.

(** A step elsewhere leaves the field's registered controller as it is. *)
Lemma elsewhere_step field st w c a :
  tokens_ok w -> elsewhere field st = true ->
  Map_get field (controllers w) = Some c ->
  nth_error (aborts w) c = Some a ->
  Map_get field (controllers (step css origin_of resolves st w)) = Some c
  /\ nth_error (aborts (step css origin_of resolves st w)) c = Some a.
Proof.
  intros Hok Hel Hg Hn.
  assert (Hsame : forall w', tokens w' = tokens w ->
            Map_get field (controllers w') = Some c
            /\ nth_error (aborts w') c = Some a).
  { unfold tokens. intros w' H. injection H as -> ->. auto. }
  destruct st as [| t | t s | | s | html target]; simpl in Hel.
  - apply Hsame. apply connectedCallback_keeps_tokens.
  - destruct (value t) as [| x v] eqn:Ev.
    + unfold step, handleInputValidation_send. rewrite Ev. auto.
    + rewrite orb_false_r in Hel. apply negb_true_iff in Hel.
      apply String.eqb_neq in Hel.
      assert (Hv : value t <> EmptyString) by (rewrite Ev; discriminate).
      destruct (blur_sent_run t w Hv) as [Hm [Ha _]].
      rewrite Hm, Ha. split.
      * rewrite Map_get_set_other by congruence. exact Hg.
      * assert (Hlt : c < length (aborts w))
          by (apply nth_error_Some; rewrite Hn; discriminate).
        destruct Hok as [_ HB].
        destruct (Map_get (name t) (controllers w)) as [c0 |] eqn:Eg0.
        -- rewrite nth_error_app1 by (rewrite length_update; exact Hlt).
           rewrite nth_error_update.
           destruct (Nat.eqb c c0) eqn:E; [| exact Hn].
           apply Nat.eqb_eq in E. subst c0. exfalso.
           destruct (HB _ _ (Map_get_In _ _ _ Hg)) as [a1 [Hn1 Hc1]].
           destruct (HB _ _ (Map_get_In _ _ _ Eg0)) as [a2 [Hn2 Hc2]].
           rewrite Hn1 in Hn2. injection Hn2 as <-. congruence.
        -- rewrite nth_error_app1 by exact Hlt. exact Hn.
  - apply Hsame. apply blur_settle_keeps_tokens.
  - discriminate.
  - apply Hsame. apply submit_settle_keeps_tokens.
  - apply Hsame. apply transition_keeps_tokens.
Qed.

Lemma elsewhere_steps field l w c a :
  reachable css origin_of resolves w -> forallb (elsewhere field) l = true ->
  Map_get field (controllers w) = Some c ->
  nth_error (aborts w) c = Some a ->
  Map_get field (controllers (steps css origin_of resolves l w)) = Some c
  /\ nth_error (aborts (steps css origin_of resolves l w)) c = Some a.
Proof.
  revert w. induction l as [| st l IH]; intros w Hr Hall Hg Hn; simpl.
  - auto.
  - simpl in Hall. apply andb_true_iff in Hall. destruct Hall as [H1 H2].
    destruct (elsewhere_step field st w c a) as [Hg' Hn']; auto.
    { apply reachable_tokens_ok. exact Hr. }
    apply IH; auto. apply reach_step. exact Hr.
Qed.

(** A blur leaves an aborted controller as it is. *)
Lemma blur_keeps_aborted (t : HTMLInputElement) (w : World) (i : nat)
    (a : AbortController) :
  nth_error (aborts w) i = Some a ->
  aborted a = true ->
  nth_error (aborts (step css origin_of resolves (BlurSent t) w)) i = Some a.
Proof.
  intros Hn Hab.
  destruct (value t) as [| x v] eqn:Ev.
  - unfold step, handleInputValidation_send. rewrite Ev. exact Hn.
  - assert (Hv : value t <> EmptyString) by (rewrite Ev; discriminate).
    destruct (blur_sent_run t w Hv) as [_ [Ha _]]. rewrite Ha.
    assert (Hlt : i < length (aborts w))
      by (apply nth_error_Some; rewrite Hn; discriminate).
    destruct (Map_get (name t) (controllers w)) as [c0 |].
    + rewrite nth_error_app1 by (rewrite length_update; exact Hlt).
      rewrite nth_error_update, Hn.
      destruct (Nat.eqb i c0); simpl; [| reflexivity].
      unfold mark_aborted. rewrite Hab. reflexivity.
    + rewrite nth_error_app1 by exact Hlt. exact Hn.
Qed.

(** C4, as amended: two successive validations of one field, with
    anything but a validation of that field or a submission in between.  The
    controller of the first request is the only live one for the field until
    the second blur; the second blur aborts it with the reason "Aborted by
    user" before it issues its own request (when the field's name makes a
    header value; otherwise it only logs the error), and leaves its own
    controller as the only live one.  A submission before the second blur
    cancels the first request with the default abort error, and the second
    blur then leaves that reason as it is.  At any time every channel key
    has at most one live controller. *)
Theorem blur_supersedes_previous_validation :
  forall (w : World) (field v1 v2 : string) (between : list Step),
    reachable css origin_of resolves w ->
    v1 <> EmptyString -> v2 <> EmptyString ->
    forallb (elsewhere field) between = true ->
    let w1 := step css origin_of resolves (BlurSent (mkInput field v1)) w in
    let w1' := steps css origin_of resolves between w1 in
    let w2 := step css origin_of resolves (BlurSent (mkInput field v2)) w1' in
    let c1 := length (aborts w) in
    let c2 := length (aborts w1') in
    live_tokens field w1 = [c1]
    /\ live_tokens field w1' = [c1]
    /\ nth_error (aborts w2) c1
       = Some (mkController field true (Some (Reason "Aborted by user")))
    /\ live_tokens field w2 = [c2]
    /\ log w2
       = log w1' ++ [Abort c1 (Some "Aborted by user")]
         ++ match addHeader EnhancedHeader.Validate field with
            | Normal h =>
                match _form w1' with
                | Some f => [Fetch f h (Some c2)]
                | None => [ConsoleWarn TypeError]
                end
            | Throw e => [ConsoleWarn e]
            end
    /\ nth_error (aborts (step css origin_of resolves SubmitSent w1')) c1
       = Some (mkController field true (Some AbortError))
    /\ nth_error
         (aborts (step css origin_of resolves (BlurSent (mkInput field v2))
                    (step css origin_of resolves SubmitSent w1'))) c1
       = Some (mkController field true (Some AbortError))
    /\ (forall w' key,
           reachable css origin_of resolves w' -> length (live_tokens key w') <= 1).
Proof.
  intros w field v1 v2 between Hr Hv1 Hv2 Hbetween w1 w1' w2 c1 c2.
  assert (Hr1 : reachable css origin_of resolves w1) by (apply reach_step; exact Hr).
  assert (Hr1' : reachable css origin_of resolves w1')
    by (apply reachable_steps; exact Hr1).
  assert (Hr2 : reachable css origin_of resolves w2) by (apply reach_step; exact Hr1').
  destruct (blur_sent_run (mkInput field v1) w Hv1) as [Hm1 [Ha1 _]].
  simpl name in *.
  assert (Hg1 : Map_get field (controllers w1) = Some c1).
  { subst w1. rewrite Hm1. apply Map_get_set_same. }
  assert (Hn1 : nth_error (aborts w1) c1
                = Some (mkController field false None)).
  { subst w1. rewrite Ha1. rewrite nth_error_app2.
    - replace (c1 - _) with 0; [reflexivity |].
      subst c1. destruct (Map_get field (controllers w));
        rewrite ?length_update; lia.
    - subst c1. destruct (Map_get field (controllers w));
        rewrite ?length_update; lia. }
  destruct (elsewhere_steps field between w1 c1 _ Hr1 Hbetween Hg1 Hn1)
    as [Hg1' Hn1'].
  fold w1' in Hg1', Hn1'.
  destruct (blur_sent_run (mkInput field v2) w1' Hv2) as [Hm2 [Ha2 [Hl2 _]]].
  simpl name in *. fold w2 in Hm2, Ha2, Hl2. rewrite Hg1' in Ha2, Hl2.
  assert (Hlt : c1 < length (aborts w1'))
    by (apply nth_error_Some; rewrite Hn1'; discriminate).
  assert (Hsub : nth_error
                   (aborts (step css origin_of resolves SubmitSent w1')) c1
                 = Some (mkController field true (Some AbortError))).
  { destruct (submit_sent_run w1') as [_ [Ha3 _]]. rewrite Ha3.
    rewrite nth_error_app1 by (rewrite length_cancel_all; exact Hlt).
    rewrite nth_error_cancel_all, Hn1'.
    rewrite (existsb_snd_In _ field c1 (Map_get_In _ _ _ Hg1')).
    reflexivity. }
  repeat split.
  - apply live_tokens_single; [apply reachable_tokens_ok; exact Hr1 |].
    apply live_tokens_In. eexists. repeat split; [exact Hn1 | |]; reflexivity.
  - apply live_tokens_single; [apply reachable_tokens_ok; exact Hr1' |].
    apply live_tokens_In. eexists. repeat split; [exact Hn1' | |]; reflexivity.
  - rewrite Ha2. rewrite nth_error_app1 by (rewrite length_update; exact Hlt).
    rewrite nth_error_update, Nat.eqb_refl, Hn1'. reflexivity.
  - apply live_tokens_single; [apply reachable_tokens_ok; exact Hr2 |].
    apply live_tokens_In. exists (mkController field false None).
    repeat split. rewrite Ha2. rewrite nth_error_app2.
    + replace (c2 - _) with 0; [reflexivity |].
      subst c2. rewrite length_update. lia.
    + subst c2. rewrite length_update. lia.
  - exact Hl2.
  - exact Hsub.
  - apply blur_keeps_aborted; [exact Hsub | reflexivity].
  - intros w' key Hr'. apply at_most_one_live.
    apply reachable_tokens_ok. exact Hr'.
Qed.

(** C3, as amended: a submit aborts every controller held in the map,
    whatever its key (the controller of an earlier submission under the key
    [form] included), and only then issues the submission request under a
    fresh controller registered as [form]: afterwards that controller is the
    only live one. *)
Theorem submit_cancels_every_token_first :
  forall (w : World) (f : nat),
    reachable css origin_of resolves w ->
    _form w = Some f ->
    let w' := step css origin_of resolves SubmitSent w in
    log w'
    = log w ++ [PreventDefault]
      ++ map (fun kc => Abort (snd kc) None) (controllers w)
      ++ [Fetch f (EnhancedHeader.Submit, "form")
            (Some (length (aborts w)))]
    /\ (forall c, c < length (aborts w) -> live w' c = false)
    /\ (forall key, key <> "form" -> live_tokens key w' = [])
    /\ live_tokens "form" w' = [length (aborts w)].
Proof.
  intros w f Hr Hf w'.
  pose proof (reachable_tokens_ok w Hr) as Hok.
  assert (Hr' : reachable css origin_of resolves w') by (apply reach_step; exact Hr).
  destruct (submit_sent_run w) as [Hm [Ha [Hl _]]].
  fold w' in Hm, Ha, Hl. rewrite Hf in Hl.
  assert (Hdead : forall c, c < length (aborts w) -> live w' c = false).
  { intros c Hc. unfold live. rewrite Ha.
    rewrite nth_error_app1 by (rewrite length_cancel_all; exact Hc).
    destruct (nth_error (cancel_all _ _) c) as [a |] eqn:En; [| reflexivity].
    rewrite (cancel_all_none_live w c a Hok En). reflexivity. }
  assert (Hnew : nth_error (aborts w') (length (aborts w))
                 = Some (mkController "form" false None)).
  { rewrite Ha. rewrite nth_error_app2 by (rewrite length_cancel_all; lia).
    rewrite length_cancel_all, Nat.sub_diag. reflexivity. }
  repeat split.
  - exact Hl.
  - exact Hdead.
  - intros key Hkey.
    destruct (live_tokens key w') as [| c l] eqn:El; [reflexivity |].
    exfalso.
    assert (Hin : In c (live_tokens key w')) by (rewrite El; now left).
    apply live_tokens_In in Hin. destruct Hin as [a [Hn [Hlive Hc]]].
    destruct (Nat.lt_ge_cases c (length (aborts w))) as [Hlt | Hge].
    + specialize (Hdead c Hlt). unfold live in Hdead.
      rewrite Hn, Hlive in Hdead. discriminate.
    + assert (Hlen : length (aborts w') = S (length (aborts w))).
      { rewrite Ha, length_app, length_cancel_all. simpl. lia. }
      assert (c < length (aborts w'))
        by (apply nth_error_Some; rewrite Hn; discriminate).
      assert (c = length (aborts w)) by lia. subst c.
      rewrite Hnew in Hn. injection Hn as <-. simpl in Hc. congruence.
  - apply live_tokens_single; [apply reachable_tokens_ok; exact Hr' |].
    apply live_tokens_In. eexists. repeat split; [exact Hnew | |]; reflexivity.
Qed.

End Tokens.

(** ** The DOM patcher *)

Section Patcher.

(** Induction on elements, with the hypothesis for every child. *)
Fixpoint Node_children_ind (P : Node -> Prop)
    (H : forall u t a cs, Forall P cs -> P (Element u t a cs))
    (n : Node) : P n :=
  match n with
  | Element u t a cs =>
      H u t a cs
        ((fix children (l : list Node) : Forall P l :=
            match l with
            | [] => Forall_nil P
            | c :: r => Forall_cons c (Node_children_ind P H c) (children r)
            end) cs)
  end.

Lemma descendants_children u t a cs :
  descendants (Element u t a cs) = flat_map nodes cs.
Proof. reflexivity. Qed.

Lemma find_skip {A} (q : A -> bool) (l1 l2 : list A) :
  (forall x, In x l1 -> q x = false) -> find q (l1 ++ l2) = find q l2.
Proof.
  induction l1 as [| x r IH]; intro H; simpl; [reflexivity |].
  rewrite (H x) by now left. apply IH. intros y Hy. apply H. now right.
Qed.

Lemma uid_not_in (c : nat) (l : list Node) :
  ~ In c (map uid l) -> forall x, In x l -> Nat.eqb (uid x) c = false.
Proof.
  intros H x Hx. apply Nat.eqb_neq. intro E. apply H.
  apply in_map_iff. exists x. auto.
Qed.

(** Substituting for an identity that does not occur changes nothing. *)
Lemma substitute_fresh (c : nat) (new : Node) (n : Node) :
  ~ In c (map uid (descendants n)) -> substitute c new n = n.
Proof.
  induction n as [u t a cs IH] using Node_children_ind.
  rewrite descendants_children. intro Hc. simpl. f_equal.
  induction IH as [| ch r Hch _ IHr]; simpl; [reflexivity |].
  simpl in Hc. rewrite map_app in Hc.
  assert (H1 : uid ch <> c) by (intro E; apply Hc; left; exact E).
  assert (H2 : ~ In c (map uid (descendants ch))).
  { intro H. apply Hc. right. apply in_or_app. left. exact H. }
  assert (H3 : ~ In c (map uid (flat_map nodes r))).
  { intro H. apply Hc. right. apply in_or_app. right. exact H. }
  apply Nat.eqb_neq in H1. rewrite H1, (Hch H2), (IHr H3). reflexivity.
Qed.

Lemma substitute_children_fresh (c : nat) (new : Node) (l : list Node) :
  ~ In c (map uid (flat_map nodes l)) ->
  map (fun ch => if Nat.eqb (uid ch) c then new else substitute c new ch) l
  = l.
Proof.
  induction l as [| ch r IH]; simpl; intro Hc; [reflexivity |].
  rewrite map_app in Hc.
  assert (H1 : uid ch <> c) by (intro E; apply Hc; left; exact E).
  apply Nat.eqb_neq in H1. rewrite H1. f_equal.
  - apply substitute_fresh. intro H. apply Hc. right.
    apply in_or_app. left. exact H.
  - apply IH. intro H. apply Hc. right. apply in_or_app. right. exact H.
Qed.

Lemma substitute_roots_fresh (c : nat) (new : Node) (f : Forest) :
  ~ In c (uids f) -> map (substitute c new) f = f.
Proof.
  unfold uids, all_nodes. induction f as [| r f IH]; simpl; intro Hc;
    [reflexivity |].
  rewrite map_app in Hc. f_equal.
  - apply substitute_fresh. intro H. apply Hc. right.
    apply in_or_app. left. exact H.
  - apply IH. intro H. apply Hc. right. apply in_or_app. right. exact H.
Qed.

Lemma substitute_around (c : nat) (new cur : Node) (l r : list Node) :
  uid cur = c ->
  ~ In c (map uid (flat_map nodes l)) ->
  ~ In c (map uid (flat_map nodes r)) ->
  map (fun ch => if Nat.eqb (uid ch) c then new else substitute c new ch)
    (l ++ cur :: r)
  = l ++ new :: r.
Proof.
  intros Hcur Hl Hr. rewrite map_app. simpl.
  rewrite (substitute_children_fresh c new l Hl).
  rewrite (substitute_children_fresh c new r Hr).
  rewrite Hcur, Nat.eqb_refl. reflexivity.
Qed.

(** The single node swap: in a tree where the identity of [cur] is its
    own, substituting for it fills the hole of its context with [new]. *)
Lemma substitute_plug (k : Ctx) (cur new : Node) :
  ~ In (uid cur) (ctx_ids k) ->
  substitute (uid cur) new (plug k cur) = plug k new.
Proof.
  induction k as [u t a l r | u t a l k IH r]; simpl; intro Hc.
  - f_equal. apply substitute_around; [reflexivity | |];
      intro H; apply Hc; right; apply in_or_app; [left | right]; exact H.
  - f_equal. rewrite map_app. simpl.
    assert (Hl : ~ In (uid cur) (map uid (flat_map nodes l))).
    { intro H. apply Hc. right. apply in_or_app. left. exact H. }
    assert (Hk : ~ In (uid cur) (ctx_ids k)).
    { intro H. apply Hc. right. apply in_or_app. right.
      apply in_or_app. left. exact H. }
    assert (Hr : ~ In (uid cur) (map uid (flat_map nodes r))).
    { intro H. apply Hc. right. apply in_or_app. right.
      apply in_or_app. right. exact H. }
    rewrite (substitute_children_fresh _ new l Hl).
    rewrite (substitute_children_fresh _ new r Hr).
    rewrite (IH Hk).
    assert (Hroot : Nat.eqb (uid (plug k cur)) (uid cur) = false).
    { apply Nat.eqb_neq. intro E. apply Hk.
      destruct k; simpl in *; left; exact E. }
    rewrite Hroot. reflexivity.
Qed.

Lemma In_plug (k : Ctx) (x : Node) : In x (descendants (plug k x)).
Proof.
  induction k as [u t a l r | u t a l k IH r]; simpl plug;
    rewrite descendants_children, flat_map_app; apply in_or_app; right;
    simpl; [now left |].
  right. apply in_or_app. left. exact IH.
Qed.

(** Looking up an identity that is its node's own finds the node in the
    hole. *)
Lemma find_plug (k : Ctx) (x : Node) (tl : list Node) :
  ~ In (uid x) (ctx_ids k) ->
  find (fun n => Nat.eqb (uid n) (uid x)) (nodes (plug k x) ++ tl) = Some x.
Proof.
  revert tl. induction k as [u t a l r | u t a l k IH r]; intros tl Hc;
    simpl in Hc; unfold nodes; simpl plug; rewrite descendants_children;
    simpl.
  - assert (Hu : Nat.eqb u (uid x) = false)
      by (apply Nat.eqb_neq; intro E; apply Hc; left; exact E).
    rewrite Hu, flat_map_app, <- app_assoc. rewrite find_skip.
    + simpl. rewrite Nat.eqb_refl. reflexivity.
    + apply uid_not_in. intro H. apply Hc. right.
      apply in_or_app. left. exact H.
  - assert (Hu : Nat.eqb u (uid x) = false)
      by (apply Nat.eqb_neq; intro E; apply Hc; left; exact E).
    rewrite Hu, flat_map_app, <- app_assoc. rewrite find_skip.
    + simpl. rewrite <- app_assoc.
      apply (IH (flat_map nodes r ++ tl)).
      intro H. apply Hc. right. apply in_or_app. right.
      apply in_or_app. left. exact H.
    + apply uid_not_in. intro H. apply Hc. right.
      apply in_or_app. left. exact H.
Qed.

Lemma lookup_plug (k : Ctx) (x : Node) (rest : Forest) :
  ~ In (uid x) (ctx_ids k) -> lookup (uid x) (plug k x :: rest) = Some x.
Proof.
  intro Hc. unfold lookup, all_nodes. simpl. apply find_plug. exact Hc.
Qed.

Lemma hasParent_plug (k : Ctx) (x : Node) (rest : Forest) :
  hasParent (uid x) (plug k x :: rest) = true.
Proof.
  unfold hasParent. simpl. apply orb_true_iff. left.
  apply existsb_exists. exists x. split; [apply In_plug | apply Nat.eqb_refl].
Qed.

(** [replaceWith] on a document seen as a context around the current
    node: the context is untouched, the hole holds the new node, and the old
    node is kept as a detached tree. *)
Lemma replaceWith_plug (k : Ctx) (cur new : Node) (rest : Forest) :
  ~ In (uid cur) (ctx_ids k) ->
  ~ In (uid cur) (uids rest) ->
  replaceWith (uid cur) new (plug k cur :: rest)
  = plug k new :: rest ++ [cur].
Proof.
  intros Hk Hrest. unfold replaceWith.
  rewrite hasParent_plug, (lookup_plug k cur rest Hk). simpl.
  rewrite (substitute_plug k cur new Hk).
  rewrite (substitute_roots_fresh _ new rest Hrest). reflexivity.
Qed.

(** A node without a parent is not replaced. *)
Lemma replaceWith_detached (c : nat) (new : Node) (f : Forest) :
  hasParent c f = false -> replaceWith c new f = f.
Proof. intro H. unfold replaceWith. rewrite H. reflexivity. Qed.

End Patcher.

Section Replacement.

Variable css : string -> option (Node -> bool).
Variable origin_of : string -> option string.
Variable resolves : string -> bool.

Lemma bind_normal {A B} (m : Js A) (k : A -> Js B) w a w1 :
  m w = (Normal a, w1) -> bind m k w = k a w1.
Proof. intro H. unfold bind. rewrite H. reflexivity. Qed.

Lemma replaceElements_run html selector root w p :
  css selector = Some p ->
  replaceElements css html selector root w
  = match querySelector p html, currentElement p root w with
    | Some n, Some c =>
        (Normal (Some n), set_dom (replaceWith c n (dom w)) w)
    | _, _ => (Normal None, w)
    end.
Proof.
  intro Hp.
  unfold replaceElements, this_querySelector, querySelector_of, compile,
    currentElement.
  rewrite Hp. unfold bind, get, ret, modify.
  destruct root as [r |]; simpl.
  - destruct (querySelector p html); reflexivity.
  - destruct (lookup (this w) (dom w)) as [el |]; simpl.
    + destruct (querySelector p el); simpl;
        destruct (querySelector p html); reflexivity.
    + destruct (querySelector p html); reflexivity.
Qed.

(** C5, as amended: for a selector the engine accepts, [replaceElements]
    without root override takes the first match of the selector in the new
    document and the first match under the component; when both exist, the
    current match is swapped for the new one, its surroundings staying as
    they are, and the new node is returned; when either is missing nothing
    changes and none is returned.  With or without an override, no match in
    the new document means no change and none.  For a text that is not a
    selector the operation throws. *)
Theorem replaceElements_swaps_the_first_match :
  forall (html : Node) (selector : string) (w : World),
    (css selector = None ->
     forall root : option nat,
       replaceElements css html selector root w
       = (Throw (SyntaxError selector), w))
    /\ (forall p : Node -> bool,
          css selector = Some p ->
          (forall root : option nat,
              querySelector p html = None ->
              replaceElements css html selector root w = (Normal None, w))
          /\ (forall component : Node,
                 lookup (this w) (dom w) = Some component ->
                 querySelector p component = None ->
                 replaceElements css html selector None w = (Normal None, w))
          /\ (forall (new component cur : Node) (k : Ctx) (rest : Forest),
                 querySelector p html = Some new ->
                 lookup (this w) (dom w) = Some component ->
                 querySelector p component = Some cur ->
                 dom w = plug k cur :: rest ->
                 ~ In (uid cur) (ctx_ids k) ->
                 ~ In (uid cur) (uids rest) ->
                 replaceElements css html selector None w
                 = (Normal (Some new),
                    set_dom (plug k new :: rest ++ [cur]) w))).
Proof.
  intros html selector w. split.
  - intros Hp root. unfold replaceElements, compile, bind, throw.
    rewrite Hp. reflexivity.
  - intros p Hp. split; [| split].
    + intros root Hnone.
      rewrite (replaceElements_run html selector root w p Hp), Hnone.
      reflexivity.
    + intros component Hthis Hnone.
      rewrite (replaceElements_run html selector None w p Hp).
      unfold currentElement. rewrite Hthis, Hnone. simpl.
      destruct (querySelector p html); reflexivity.
    + intros new component cur k rest Hnew Hthis Hcur Hdom Hk Hrest.
      rewrite (replaceElements_run html selector None w p Hp), Hnew.
      unfold currentElement. rewrite Hthis, Hcur. simpl.
      rewrite Hdom, (replaceWith_plug k cur new rest Hk Hrest). reflexivity.
Qed.

Lemma forEach_addEventListener (l : list Node) (w : World) :
  forEach (fun input => addEventListener (uid input) Blur) l w
  = (Normal tt,
     set_listeners (listeners w ++ map (fun i => (uid i, Blur)) l) w).
Proof.
  revert w. induction l as [| x l IH]; intro w; simpl.
  - rewrite app_nil_r. destruct w; reflexivity.
  - unfold bind at 1. unfold addEventListener at 1. unfold modify.
    rewrite IH. unfold set_listeners; simpl.
    rewrite <- app_assoc. reflexivity.
Qed.

(** Full binding on a form that is in the forest. *)
Lemma bindEvents_run (w : World) (f : Node) (pv : Node -> bool) :
  css validateSelector = Some pv ->
  _form w = Some (uid f) ->
  lookup (uid f) (dom w) = Some f ->
  bindEvents css None w
  = (Normal tt,
     set_listeners
       (listeners w ++ (uid f, Submit)
        :: map (fun i => (uid i, Blur)) (querySelectorAll pv f)) w).
Proof.
  intros Hpv Hf Hl. unfold bindEvents, form_ref, compile.
  rewrite Hpv. unfold bind, get, ret, addEventListener, modify.
  rewrite Hf. simpl. rewrite Hl.
  rewrite forEach_addEventListener. unfold set_listeners; simpl.
  rewrite <- app_assoc. reflexivity.
Qed.

End Replacement.

Section ValidationFailure.

Variable css : string -> option (Node -> bool).
Variable origin_of : string -> option string.
Variable resolves : string -> bool.



Lemma on4XX_run (w : World) (response : Response) (html : Node) (k : Ctx)
    (oldForm newForm component : Node) (rest : Forest)
    (pf pv : Node -> bool) :
  css "form" = Some pf ->
  css validateSelector = Some pv ->
  400 <= status response <= 499 ->
  querySelector pf html = Some newForm ->
  dom w = plug k oldForm :: rest ->
  ~ In (uid oldForm) (ctx_ids k) ->
  ~ In (uid oldForm) (uids rest) ->
  ~ In (uid newForm) (ctx_ids k) ->
  lookup (this w) (dom w) = Some component ->
  querySelector pf component = Some oldForm ->
  on4XX css response html w
  = (Normal tt, after4XX k oldForm newForm rest pv w).
Proof.
  intros Hpf Hpv Hst Hnew Hdom Hold Hrest Hfresh Hthis Hform.
  unfold on4XX.
  replace (Nat.leb 400 (status response) && Nat.leb (status response) 499)
    with true.
  2:{ symmetry. apply andb_true_iff. split; apply Nat.leb_le; lia. }
  assert (Hrep : replaceElements css html "form" None w
                 = (Normal (Some newForm),
                    set_dom (plug k newForm :: rest ++ [oldForm]) w)).
  { rewrite (replaceElements_run css html "form" None w pf Hpf).
    rewrite Hnew. unfold currentElement. rewrite Hthis, Hform. simpl.
    rewrite Hdom, (replaceWith_plug k oldForm newForm rest Hold Hrest).
    reflexivity. }
  rewrite (bind_normal _ _ _ _ _ Hrep).
  unfold bind at 1. unfold modify at 1. simpl option_map.
  rewrite (bindEvents_run css _ newForm pv Hpv).
  - reflexivity.
  - reflexivity.
  - simpl. apply lookup_plug. exact Hfresh.
Qed.


End ValidationFailure.

(** * The component on the sample pages *)

Lemma readme_world_reachable :
  reachable Sample.css Sample.origin_of Sample.resolves Sample.readme_world.
Proof. apply (reach_new _ _ _ Sample.readme_page 10). reflexivity. Qed.

(** C1 on the README page: a 500 response that carries the redirect header
    navigates and still replaces the component; a redirect header with an
    empty value does not navigate at all. *)
Lemma redirect_header_does_not_stop_replacement :
  (let r := Sample.response 500 (redirect_to "/thanks") in
   let w' := snd (handleFormValidation_settle Sample.css Sample.origin_of
                    Sample.resolves
                    (FetchResolved r (Parsed Sample.errors_html))
                    Sample.readme_world) in
   ~ (getHeader r EnhancedHeader.Redirect <> None ->
      visited w' = ["/thanks"] /\ dom w' = dom Sample.readme_world))
  /\ (let r := Sample.response 200 (redirect_to EmptyString) in
      let w' := snd (handleFormValidation_settle Sample.css Sample.origin_of
                       Sample.resolves
                       (FetchResolved r (Parsed Sample.plain_html))
                       Sample.readme_world) in
      ~ (getHeader r EnhancedHeader.Redirect <> None ->
         visited w' = [EmptyString] /\ dom w' = dom Sample.readme_world)).
Proof.
  split; cbv zeta; intro H.
  - destruct H as [_ Hd]; [vm_compute; discriminate |].
    apply (f_equal uids) in Hd. vm_compute in Hd. discriminate Hd.
  - destruct H as [Hv _]; [vm_compute; discriminate |].
    vm_compute in Hv. discriminate Hv.
Qed.

Lemma redirect_header_navigates_witness :
  getHeader (Sample.response 500 (redirect_to "/thanks"))
    EnhancedHeader.Redirect = Some "/thanks"
  /\ visited
       (snd (handleFormValidation_settle Sample.css Sample.origin_of
               Sample.resolves
               (FetchResolved (Sample.response 500 (redirect_to "/thanks"))
                  (Parsed Sample.errors_html))
               Sample.readme_world))
     = ["/thanks"]
  /\ visited
       (snd (handleFormValidation_settle Sample.css Sample.origin_of
               Sample.resolves
               (FetchResolved
                  (Sample.response 200
                     [("x-enhance-redirect", "/a");
                      ("X-ENHANCE-REDIRECT", "/b")])
                  (Parsed Sample.plain_html))
               Sample.readme_world))
     = ["/a, /b"].
Proof.
  split; [reflexivity |]. split.
  - apply (redirect_header_navigates Sample.css Sample.origin_of
             Sample.resolves
             (FetchResolved (Sample.response 500 (redirect_to "/thanks"))
                (Parsed Sample.errors_html))
             Sample.readme_world Sample.readme_world
             (Sample.response 500 (redirect_to "/thanks"))
             (Some Sample.errors_html) "/thanks").
    + reflexivity.
    + reflexivity.
    + discriminate.
  - apply (redirect_header_navigates Sample.css Sample.origin_of
             Sample.resolves
             (FetchResolved
                (Sample.response 200
                   [("x-enhance-redirect", "/a");
                    ("X-ENHANCE-REDIRECT", "/b")])
                (Parsed Sample.plain_html))
             Sample.readme_world Sample.readme_world
             (Sample.response 200
                [("x-enhance-redirect", "/a"); ("X-ENHANCE-REDIRECT", "/b")])
             (Some Sample.plain_html) "/a, /b").
    + reflexivity.
    + reflexivity.
    + discriminate.
Defined.

(** C10 on the README page: a fetch that was redirected to another origin
    and whose response carries the redirect header with an empty value.  The
    browser is sent to the final URL of the fetch. *)
Lemma empty_redirect_header_after_external_redirect :
  let r := mkResponse 200 true "https://pay.example/checkout"
             (redirect_to EmptyString) in
  let w' := snd (handleFormValidation_settle Sample.css Sample.origin_of
                   Sample.resolves
                   (FetchResolved r (Parsed Sample.plain_html))
                   Sample.readme_world) in
  getHeader r EnhancedHeader.Redirect = Some EmptyString
  /\ visited w' = ["https://pay.example/checkout"]
  /\ ~ (getHeader r EnhancedHeader.Redirect = Some EmptyString ->
        visited w' = visited Sample.readme_world).
Proof.
  cbv zeta. split; [reflexivity |]. split; [reflexivity |].
  intro H. specialize (H eq_refl). vm_compute in H. discriminate H.
Qed.

Lemma empty_redirect_header_is_ignored_witness :
  getHeader (Sample.response 500 (redirect_to EmptyString))
    EnhancedHeader.Redirect = Some EmptyString
  /\ handleFormValidation_settle Sample.css Sample.origin_of Sample.resolves
       (FetchResolved (Sample.response 500 (redirect_to EmptyString))
          (Parsed Sample.errors_html))
       Sample.readme_world
     = handleFormValidation_settle Sample.css Sample.origin_of Sample.resolves
         (FetchResolved
            (without_header EnhancedHeader.Redirect
               (Sample.response 500 (redirect_to EmptyString)))
            (Parsed Sample.errors_html))
         Sample.readme_world
  /\ visited
       (snd (handleFormValidation_settle Sample.css Sample.origin_of
               Sample.resolves
               (FetchResolved (Sample.response 500 (redirect_to EmptyString))
                  (Parsed Sample.errors_html))
               Sample.readme_world))
     = [].
Proof.
  split; [reflexivity |].
  destruct (empty_redirect_header_is_ignored Sample.css Sample.origin_of
              Sample.resolves
              (Sample.response 500 (redirect_to EmptyString))
              (Parsed Sample.errors_html) Sample.readme_world)
    as [_ [H2 H3]].
  - reflexivity.
  - split; [exact H2 | exact H3].
Defined.

(** C2 on the README page: a 500 response with the [#errors] element.
    The whole component (node 10) is replaced by the new element and kept as
    a detached tree; the live [#errors] node (21) stays where it was. *)
Lemma server_error_replaces_the_component :
  let new := Sample.el 121 "div" [("id", "errors")] [Sample.el 122 "p" [] []] in
  let w' := snd (handleFormValidation_settle Sample.css Sample.origin_of Sample.resolves
                   (FetchResolved (Sample.response 500 [])
                      (Parsed Sample.errors_html))
                   Sample.readme_world) in
  dom w' = replaceWith 10 new (dom Sample.readme_world)
  /\ dom w' <> replaceWith 21 new (dom Sample.readme_world)
  /\ map uids (map (fun r => [r]) (dom w'))
     = [[0; 1; 2; 121; 122; 20; 21]; [10; 11; 12; 13; 14; 15; 16; 17; 18]].
Proof.
  cbv zeta. split; [reflexivity | split; [| reflexivity]].
  intro H. apply (f_equal uids) in H. vm_compute in H. discriminate H.
Qed.

(** C3 on the README page: a second submit aborts the controller of the
    first, which is registered under the submission key. *)
Lemma second_submit_cancels_the_first :
  let w1 := step Sample.css Sample.origin_of Sample.resolves SubmitSent Sample.readme_world in
  let w2 := step Sample.css Sample.origin_of Sample.resolves SubmitSent w1 in
  ~ (forall c why,
        In (Abort c why) (skipn (length (log w1)) (log w2)) ->
        Map_get "form" (controllers w1) <> Some c).
Proof.
  cbv zeta. intro H. apply (H 0 None).
  - vm_compute. right. left. reflexivity.
  - reflexivity.
Qed.

Lemma submit_cancels_every_token_first_witness :
  let w := step Sample.css Sample.origin_of Sample.resolves
             (BlurSent (mkInput "email" "a")) Sample.readme_world in
  _form w = Some 11
  /\ log (step Sample.css Sample.origin_of Sample.resolves SubmitSent w)
     = [Fetch 11 (EnhancedHeader.Validate, "email") (Some 0);
        PreventDefault; Abort 0 None;
        Fetch 11 (EnhancedHeader.Submit, "form") (Some 1)].
Proof.
  cbv zeta. split; [reflexivity |].
  apply (submit_cancels_every_token_first Sample.css Sample.origin_of Sample.resolves
           (step Sample.css Sample.origin_of Sample.resolves
              (BlurSent (mkInput "email" "a")) Sample.readme_world) 11).
  - apply reach_step. exact readme_world_reachable.
  - reflexivity.
Defined.

(** C4 on the README page: a submit between two validations of the email
    field cancels the first request with the default abort error, so that its
    reason is not the one of a supersession. *)
Lemma submit_between_blurs_cancels_by_default :
  let w1 := step Sample.css Sample.origin_of Sample.resolves
              (BlurSent (mkInput "email" "a")) Sample.readme_world in
  let w2 := step Sample.css Sample.origin_of Sample.resolves SubmitSent w1 in
  let w3 := step Sample.css Sample.origin_of Sample.resolves
              (BlurSent (mkInput "email" "ab")) w2 in
  Map_get "email" (controllers w1) = Some 0
  /\ ~ (exists a,
          nth_error (aborts w3) 0 = Some a
          /\ reason a = Some (Reason "Aborted by user")).
Proof.
  cbv zeta. split; [reflexivity |].
  intros [a [Hn Hr]]. vm_compute in Hn. injection Hn as <-.
  discriminate Hr.
Qed.

Lemma blur_supersedes_previous_validation_witness :
  let w1 := step Sample.css Sample.origin_of Sample.resolves
              (BlurSent (mkInput "email" "a")) Sample.readme_world in
  let w1' := steps Sample.css Sample.origin_of Sample.resolves
               [BlurSent (mkInput "name" "R2")] w1 in
  let w2 := step Sample.css Sample.origin_of Sample.resolves
              (BlurSent (mkInput "email" "ab")) w1' in
  forallb (elsewhere "email") [BlurSent (mkInput "name" "R2")] = true
  /\ live_tokens "email" w1 = [0]
  /\ nth_error (aborts w2) 0
     = Some (mkController "email" true (Some (Reason "Aborted by user")))
  /\ live_tokens "email" w2 = [2]
  /\ nth_error
       (aborts
          (step Sample.css Sample.origin_of Sample.resolves
             (BlurSent (mkInput "email" "ab"))
             (step Sample.css Sample.origin_of Sample.resolves SubmitSent
                w1'))) 0
     = Some (mkController "email" true (Some AbortError)).
Proof.
  cbv zeta. split; [reflexivity |].
  destruct (blur_supersedes_previous_validation Sample.css Sample.origin_of
              Sample.resolves
              Sample.readme_world "email" "a" "ab"
              [BlurSent (mkInput "name" "R2")])
    as [H1 [_ [H2 [H3 [_ [_ [H7 _]]]]]]].
  - exact readme_world_reachable.
  - discriminate.
  - discriminate.
  - reflexivity.
  - split; [exact H1 | split; [exact H2 | split; [exact H3 | exact H7]]].
Defined.

(** C5 on the page whose targets are inside the component: a text that
    is not a selector, such as the empty default of the target, makes the
    operation throw instead of returning none. *)
Lemma invalid_selector_makes_replace_throw :
  ~ (fst (replaceElements Sample.css Sample.errors_html EmptyString None
            Sample.inner_world) = Normal None)
  /\ replaceElements Sample.css Sample.errors_html EmptyString None
       Sample.inner_world
     = (Throw (SyntaxError EmptyString), Sample.inner_world).
Proof.
  split; [| reflexivity]. vm_compute. discriminate.
Qed.

Lemma replaceElements_swaps_the_first_match_witness :
  Sample.css "#errors" = Some (Sample.attr_is "id" "errors")
  /\ plug inner_errors_context (Sample.el 21 "div" [("id", "errors")] [])
     = Sample.inner_document
  /\ replaceElements Sample.css Sample.errors_html "#errors" None
       Sample.inner_world
     = (Normal (Some (Sample.el 121 "div" [("id", "errors")]
                        [Sample.el 122 "p" [] []])),
        set_dom
          [plug inner_errors_context
             (Sample.el 121 "div" [("id", "errors")]
                [Sample.el 122 "p" [] []]);
           Sample.el 21 "div" [("id", "errors")] []]
          Sample.inner_world)
  /\ replaceElements Sample.css Sample.plain_html "#errors" None
       Sample.inner_world
     = (Normal None, Sample.inner_world)
  /\ replaceElements Sample.css Sample.errors_html "#result" None
       Sample.bare_world
     = (Normal None, Sample.bare_world)
  /\ replaceElements Sample.css Sample.errors_html EmptyString (Some 10)
       Sample.bare_world
     = (Throw (SyntaxError EmptyString), Sample.bare_world).
Proof.
  split; [reflexivity |]. split; [reflexivity |].
  split; [| split; [| split]].
  - destruct (replaceElements_swaps_the_first_match Sample.css
                Sample.errors_html "#errors" Sample.inner_world)
      as [_ H].
    destruct (H (Sample.attr_is "id" "errors") eq_refl) as [_ [_ H3]].
    apply (H3 _ (Sample.el 10 "enhance-form"
                   [("target", "#result"); ("fail-target", "#errors")]
                   [ Sample.readme_form;
                     Sample.el 20 "div" [("id", "result")] [];
                     Sample.el 21 "div" [("id", "errors")] [] ])
              (Sample.el 21 "div" [("id", "errors")] [])
              inner_errors_context []).
    + reflexivity.
    + reflexivity.
    + reflexivity.
    + reflexivity.
    + vm_compute. intuition discriminate.
    + simpl. intros [].
  - destruct (replaceElements_swaps_the_first_match Sample.css
                Sample.plain_html "#errors" Sample.inner_world)
      as [_ H].
    destruct (H (Sample.attr_is "id" "errors") eq_refl) as [H1 _].
    apply H1. reflexivity.
  - destruct (replaceElements_swaps_the_first_match Sample.css
                Sample.errors_html "#result" Sample.bare_world)
      as [_ H].
    destruct (H (Sample.attr_is "id" "result") eq_refl) as [_ [H2 _]].
    apply (H2 (Sample.el 10 "enhance-form" [] [ Sample.readme_form ]));
      reflexivity.
  - destruct (replaceElements_swaps_the_first_match Sample.css
                Sample.errors_html EmptyString Sample.bare_world)
      as [H _].
    apply H. reflexivity.
Defined.


(** C7 on the README page: a 404 response whose document has no form.
    The 4XX block stores [null] in [_form]; binding then throws inside the
    handler, and [focusFirstInvalidInput] throws to the listener's caller. *)
Lemma form_reference_becomes_null :
  let s := FetchResolved (Sample.response 404 []) (Parsed Sample.plain_html) in
  _form Sample.readme_world = Some 11
  /\ _form (snd (handleFormValidation_settle Sample.css Sample.origin_of Sample.resolves s
                   Sample.readme_world)) = None
  /\ log (snd (handleFormValidation_settle Sample.css Sample.origin_of Sample.resolves s
                 Sample.readme_world)) = [ConsoleWarn TypeError]
  /\ fst (submitListener_settle Sample.css Sample.origin_of Sample.resolves s
            Sample.readme_world) = Throw TypeError.
Proof. cbv zeta. repeat split. Qed.

Lemma failures_are_caught_and_logged_witness :
  let s := FetchRejected (Cancelled (Reason "Aborted by user")) in
  failure Sample.origin_of Sample.readme_world s
  = Some (Cancelled (Reason "Aborted by user"))
  /\ handleFormValidation_settle Sample.css Sample.origin_of Sample.resolves s
       Sample.readme_world
     = (Normal tt,
        set_log [ConsoleWarn (Cancelled (Reason "Aborted by user"))]
          Sample.readme_world)
  /\ page_state
       (snd (handleInputValidation Sample.css Sample.origin_of
               (mkInput "email" "a") s Sample.readme_world))
     = page_state Sample.readme_world.
Proof.
  cbv zeta. split; [reflexivity |].
  destruct (failures_are_caught_and_logged Sample.css Sample.origin_of Sample.resolves)
    as [_ [_ [_ [H4 [H5 _]]]]].
  split.
  - apply (H4 _ Sample.readme_world). reflexivity.
  - apply (H5 _ _ Sample.readme_world
              (Cancelled (Reason "Aborted by user"))).
    reflexivity.
Defined.

(** * Further properties of the response handling *)

Section Interpretation.

Variable css : string -> option (Node -> bool).
Variable origin_of : string -> option string.
Variable resolves : string -> bool.

(** A parsed response without redirect header goes straight to the status
    blocks. *)
Lemma settle_parsed_run (response : Response) (html : Node) (w : World) :
  redirected response
  && negb (isInternalUrl origin_of w (url response)) = false ->
  getHeader response EnhancedHeader.Redirect = None ->
  handleFormValidation_settle css origin_of resolves
    (FetchResolved response (Parsed html)) w
  = try_catch
      (on4XX css response html ;; on5XX css response html ;;
       on200 css response html)
      (warn tt) w.
Proof.
  intros Hext Hhdr.
  assert (Hreq : requestForm_settle origin_of
                   (FetchResolved response (Parsed html)) w
                 = (Normal (response, Some html), w)).
  { unfold requestForm_settle, bind, get. rewrite Hext. reflexivity. }
  unfold handleFormValidation_settle.
  rewrite (try_catch_bind_normal _ _ _ _ _ _ Hreq).
  cbv zeta. simpl fst. simpl snd. rewrite Hhdr. reflexivity.
Qed.

Lemma status_not_4XX (st : nat) :
  ~ (400 <= st <= 499) -> Nat.leb 400 st && Nat.leb st 499 = false.
Proof.
  intro H. apply andb_false_iff.
  destruct (Nat.leb 400 st) eqn:E1; [right | left; reflexivity].
  apply Nat.leb_le in E1. apply Nat.leb_gt. lia.
Qed.

Lemma status_not_5XX (st : nat) :
  ~ (500 <= st <= 599) -> Nat.leb 500 st && Nat.leb st 599 = false.
Proof.
  intro H. apply andb_false_iff.
  destruct (Nat.leb 500 st) eqn:E1; [right | left; reflexivity].
  apply Nat.leb_le in E1. apply Nat.leb_gt. lia.
Qed.

Lemma status_5XX (st : nat) :
  500 <= st <= 599 ->
  Nat.leb 400 st && Nat.leb st 499 = false
  /\ Nat.leb 500 st && Nat.leb st 599 = true
  /\ Nat.eqb st 200 = false.
Proof.
  intro H. repeat split.
  - apply status_not_4XX. lia.
  - apply andb_true_iff. split; apply Nat.leb_le; lia.
  - apply Nat.eqb_neq. lia.
Qed.

(** A status that is neither 200 nor in 400-599 (201, 204, 302, 304...)
    matches none of the three blocks: the handler returns with the state as
    it was, without any warning. *)
Theorem other_statuses_are_ignored :
  forall (response : Response) (html : Node) (w : World),
    redirected response
    && negb (isInternalUrl origin_of w (url response)) = false ->
    getHeader response EnhancedHeader.Redirect = None ->
    status response <> 200 ->
    ~ (400 <= status response <= 599) ->
    handleFormValidation_settle css origin_of resolves
      (FetchResolved response (Parsed html)) w
    = (Normal tt, w).
Proof.
  intros response html w Hext Hhdr H200 Hrange.
  rewrite (settle_parsed_run response html w Hext Hhdr).
  unfold on4XX, on5XX, on200.
  rewrite status_not_4XX by lia. rewrite status_not_5XX by lia.
  apply Nat.eqb_neq in H200. rewrite H200. reflexivity.
Qed.

(** A fetch that was redirected to another origin: both handlers hand the
    final URL to [window.location.assign] and never read the body, so that
    nothing is replaced even when the body could not have been read.  The
    submit handler still looks at the redirect header afterwards: with a
    non-empty value it calls [assign] a second time, and when the value does
    not parse as a URL the call throws, which is caught and logged as a
    warning. *)
Theorem external_redirect_navigates_away :
  forall (response : Response) (body : Body) (target : HTMLInputElement)
         (w : World),
    redirected response = true ->
    isInternalUrl origin_of w (url response) = false ->
    handleInputValidation_settle css origin_of target
      (FetchResolved response body) w
    = (Normal tt, set_log (log w ++ [LocationAssign (url response)]) w)
    /\ handleFormValidation_settle css origin_of resolves
         (FetchResolved response body) w
       = (Normal tt,
          set_log
            (log w ++ LocationAssign (url response)
             :: match getHeader response EnhancedHeader.Redirect with
                | Some (String c h) =>
                    LocationAssign (String c h)
                    :: (if resolves (String c h) then []
                        else [ConsoleWarn (SyntaxError (String c h))])
                | _ => []
                end) w).
Proof.
  intros response body target w Hred Hext. split.
  - unfold handleInputValidation_settle, requestForm_settle, try_catch, bind,
      get, emit, modify, ret.
    rewrite Hred, Hext. reflexivity.
  - unfold handleFormValidation_settle, requestForm_settle, handleRedirect,
      assign, warn, try_catch, bind, get, emit, modify, ret, throw.
    rewrite Hred, Hext. simpl.
    destruct (getHeader response EnhancedHeader.Redirect) as [h |] eqn:Eh;
      simpl; [| reflexivity].
    destruct h as [| c h]; simpl; [reflexivity |].
    destruct (resolves (String c h)); simpl;
      unfold set_log; simpl; rewrite <- ?app_assoc; simpl;
      rewrite <- ?app_assoc; reflexivity.
Qed.

(** A fetch that was redirected within the origin (or to a URL the parser
    rejects) is handled like one that was not redirected at all. *)
Theorem internal_redirect_is_transparent :
  forall (response : Response) (body : Body) (target : HTMLInputElement)
         (w : World) (b : bool),
    isInternalUrl origin_of w (url response) = true ->
    handleInputValidation_settle css origin_of target
      (FetchResolved (with_redirected b response) body) w
    = handleInputValidation_settle css origin_of target
        (FetchResolved response body) w
    /\ handleFormValidation_settle css origin_of resolves
         (FetchResolved (with_redirected b response) body) w
       = handleFormValidation_settle css origin_of resolves
           (FetchResolved response body) w.
Proof.
  intros response body target w b Hint. split.
  - unfold handleInputValidation_settle, requestForm_settle, try_catch, bind,
      get. simpl. rewrite Hint. simpl. rewrite !andb_false_r.
    destruct body; reflexivity.
  - unfold handleFormValidation_settle, requestForm_settle, try_catch, bind,
      get. simpl. rewrite Hint. simpl. rewrite !andb_false_r.
    destruct body; reflexivity.
Qed.

(** Per-field validation looks neither at the status code nor at the
    headers of the response: two responses that agree on [redirected] and
    [url] and have the same body are handled alike.  In particular a
    redirect header does not navigate and a 500 is patched in like a 200. *)
Theorem field_validation_ignores_status_and_headers :
  forall (r1 r2 : Response) (body : Body) (target : HTMLInputElement)
         (w : World),
    redirected r1 = redirected r2 ->
    url r1 = url r2 ->
    handleInputValidation_settle css origin_of target (FetchResolved r1 body) w
    = handleInputValidation_settle css origin_of target
        (FetchResolved r2 body) w.
Proof.
  intros r1 r2 body target w Hr Hu.
  unfold handleInputValidation_settle, requestForm_settle, try_catch, bind,
    get, emit, modify, ret.
  rewrite Hr, Hu.
  destruct (redirected r2 && negb (isInternalUrl origin_of w (url r2)));
    [reflexivity |].
  destruct body; reflexivity.
Qed.

End Interpretation.

(** * Further properties of the patching *)

Section Patching.

Variable css : string -> option (Node -> bool).
Variable origin_of : string -> option string.
Variable resolves : string -> bool.

Lemma replaceElements_anchor (html : Node) (selector : string) (c : nat)
    (w : World) (p : Node -> bool) (new : Node) :
  css selector = Some p ->
  querySelector p html = Some new ->
  replaceElements css html selector (Some c) w
  = (Normal (Some new), set_dom (replaceWith c new (dom w)) w).
Proof.
  intros Hp Hnew. rewrite (replaceElements_run css html selector _ w p Hp).
  rewrite Hnew. reflexivity.
Qed.

Lemma replaceElements_missing (html : Node) (selector : string)
    (root : option nat) (w : World) (p : Node -> bool) :
  css selector = Some p ->
  querySelector p html = None \/ currentElement p root w = None ->
  replaceElements css html selector root w = (Normal None, w).
Proof.
  intros Hp H. rewrite (replaceElements_run css html selector _ w p Hp).
  destruct H as [H | H]; rewrite H; [reflexivity |].
  destruct (querySelector p html); reflexivity.
Qed.

(** Per-field validation when the group of the field is missing, in the
    response or under the component: nothing is replaced, nothing is bound
    and nothing is logged. *)
Theorem field_validation_without_group_is_a_no_op :
  forall (response : Response) (html : Node) (target : HTMLInputElement)
         (w : World) (p : Node -> bool),
    redirected response
    && negb (isInternalUrl origin_of w (url response)) = false ->
    css (groupSelector (name target)) = Some p ->
    querySelector p html = None \/ currentElement p None w = None ->
    handleInputValidation_settle css origin_of target
      (FetchResolved response (Parsed html)) w
    = (Normal tt, w).
Proof.
  intros response html target w p Hext Hp Hmiss.
  unfold handleInputValidation_settle, requestForm_settle.
  unfold try_catch. unfold bind at 1. unfold bind at 1. unfold get at 1.
  rewrite Hext. unfold ret at 1. cbv beta iota delta [snd].
  unfold bind at 1.
  rewrite (replaceElements_missing html _ None w p Hp Hmiss).
  reflexivity.
Qed.

(** A 5XX or 200 response whose document has no element for the selector:
    nothing is replaced.  On 200 the view transition is still started when
    the browser has the API, and the function it calls later changes
    nothing either. *)
Theorem response_without_target_is_a_no_op :
  forall (response : Response) (html : Node) (w : World),
    redirected response
    && negb (isInternalUrl origin_of w (url response)) = false ->
    getHeader response EnhancedHeader.Redirect = None ->
    (forall p,
        500 <= status response <= 599 ->
        css (_failTargetSelector w) = Some p ->
        querySelector p html = None ->
        handleFormValidation_settle css origin_of resolves
          (FetchResolved response (Parsed html)) w
        = (Normal tt, w))
    /\ (forall p,
           status response = 200 ->
           css (_targetSelector w) = Some p ->
           querySelector p html = None ->
           handleFormValidation_settle css origin_of resolves
             (FetchResolved response (Parsed html)) w
           = (Normal tt,
              if hasViewTransitions w
              then set_log
                     (log w
                      ++ [StartViewTransition html
                            (match closest p (this w) (dom w) with
                             | Some a => Some (uid a)
                             | None => Some (this w)
                             end)]) w
              else w)
           /\ forall target w',
               _targetSelector w' = _targetSelector w ->
               transitionCallback css html target w' = (Normal tt, w')).
Proof.
  intros response html w Hext Hhdr. split.
  - intros p Hst Hp Hnone.
    rewrite (settle_parsed_run css origin_of resolves response html w Hext Hhdr).
    destruct (status_5XX _ Hst) as [H4 [H5 H2]].
    unfold on4XX, on5XX, on200. rewrite H4, H5, H2.
    unfold try_catch, bind, get, ret.
    rewrite (replaceElements_missing html _ _ w p Hp (or_introl Hnone)).
    reflexivity.
  - intros p Hst Hp Hnone.
    split.
    + rewrite (settle_parsed_run css origin_of resolves response html w Hext
                 Hhdr).
      unfold on4XX, on5XX, on200. rewrite Hst. cbn [Nat.leb Nat.eqb andb].
      cbv beta iota zeta
        delta [this_closest compile viewTransition replaceTarget try_catch
               bind get ret emit modify].
      rewrite Hp. cbv beta iota.
      destruct (closest p (this w) (dom w)) as [a |] eqn:Ec;
        cbv beta iota; destruct (hasViewTransitions w) eqn:Ev;
        cbn [negb]; cbv beta iota; rewrite ?Ec; try reflexivity;
        rewrite (replaceElements_missing html _ _ _ p Hp (or_introl Hnone));
        reflexivity.
    + intros target w' Hsel.
      unfold transitionCallback, replaceTarget, try_catch, bind, get, ret.
      rewrite Hsel in *.
      assert (Hp' : css (_targetSelector w) = Some p) by exact Hp.
      rewrite (replaceElements_run css html (_targetSelector w) target w' p
                 Hp').
      rewrite Hnone. reflexivity.
Qed.

(** A selector text the engine rejects (such as the empty default of a
    missing [target] attribute): [closest], resp. [querySelector], throws a
    syntax error inside the handler, which is caught; the response is dropped
    with a warning. *)
Theorem invalid_target_selector_only_warns :
  forall (response : Response) (html : Node) (w : World),
    redirected response
    && negb (isInternalUrl origin_of w (url response)) = false ->
    getHeader response EnhancedHeader.Redirect = None ->
    (status response = 200 ->
     css (_targetSelector w) = None ->
     handleFormValidation_settle css origin_of resolves
       (FetchResolved response (Parsed html)) w
     = (Normal tt,
        set_log (log w ++ [ConsoleWarn (SyntaxError (_targetSelector w))]) w))
    /\ (500 <= status response <= 599 ->
        css (_failTargetSelector w) = None ->
        handleFormValidation_settle css origin_of resolves
          (FetchResolved response (Parsed html)) w
        = (Normal tt,
           set_log
             (log w ++ [ConsoleWarn (SyntaxError (_failTargetSelector w))])
             w)).
Proof.
  intros response html w Hext Hhdr. split.
  - intros Hst Hp.
    rewrite (settle_parsed_run css origin_of resolves response html w Hext Hhdr).
    unfold on4XX, on5XX, on200. rewrite Hst. cbn [Nat.leb Nat.eqb andb].
    cbv beta iota zeta
      delta [this_closest compile try_catch bind get ret throw warn emit
             modify].
    rewrite Hp. reflexivity.
  - intros Hst Hp.
    rewrite (settle_parsed_run css origin_of resolves response html w Hext Hhdr).
    destruct (status_5XX _ Hst) as [H4 [H5 H2]].
    unfold on4XX, on5XX, on200. rewrite H4, H5, H2.
    cbv beta iota zeta
      delta [replaceElements compile try_catch bind get ret throw warn emit
             modify].
    rewrite Hp. reflexivity.
Qed.

(** A 200 response whose document has the target.  The node replaced is
    the nearest inclusive ancestor of the component that matches the target
    selector, or the component itself when there is none: it is swapped for
    the element of the response and kept as a detached tree.  Without the
    View Transitions API the swap happens inside the handler; with the API
    the handler only starts a transition for that node and changes nothing
    yet, and the swap happens when the browser calls the function of the
    transition, on the document as it is by then.  The form reference, the
    listeners and the controllers stay as they were: nothing is bound
    again. *)
Theorem success_replaces_the_anchor :
  forall (response : Response) (html : Node) (w : World) (p : Node -> bool)
         (new anchor : Node) (k : Ctx) (rest : Forest),
    redirected response
    && negb (isInternalUrl origin_of w (url response)) = false ->
    getHeader response EnhancedHeader.Redirect = None ->
    status response = 200 ->
    css (_targetSelector w) = Some p ->
    querySelector p html = Some new ->
    closest p (this w) (dom w) = Some anchor
    \/ (closest p (this w) (dom w) = None /\ uid anchor = this w) ->
    dom w = plug k anchor :: rest ->
    ~ In (uid anchor) (ctx_ids k) ->
    ~ In (uid anchor) (uids rest) ->
    handleFormValidation_settle css origin_of resolves
      (FetchResolved response (Parsed html)) w
    = (Normal tt,
       if hasViewTransitions w
       then set_log
              (log w ++ [StartViewTransition html (Some (uid anchor))]) w
       else set_dom (plug k new :: rest ++ [anchor]) w)
    /\ (forall w',
          _targetSelector w' = _targetSelector w ->
          step css origin_of resolves
            (TransitionRun html (Some (uid anchor))) w'
          = set_dom (replaceWith (uid anchor) new (dom w')) w')
    /\ (forall w',
          _targetSelector w' = _targetSelector w ->
          dom w' = dom w ->
          step css origin_of resolves
            (TransitionRun html (Some (uid anchor))) w'
          = set_dom (plug k new :: rest ++ [anchor]) w').
Proof.
  intros response html w p new anchor k rest Hext Hhdr Hst Hp Hnew Hanchor
    Hdom Hk Hrest.
  assert (Hrun : forall w',
            _targetSelector w' = _targetSelector w ->
            step css origin_of resolves
              (TransitionRun html (Some (uid anchor))) w'
            = set_dom (replaceWith (uid anchor) new (dom w')) w').
  { intros w' Hsel.
    cbv beta iota delta [step transitionCallback replaceTarget try_catch bind
                         get ret].
    rewrite Hsel.
    rewrite (replaceElements_anchor html _ (uid anchor) w' p new Hp Hnew).
    reflexivity. }
  split; [| split; [exact Hrun |]].
  - rewrite (settle_parsed_run css origin_of resolves response html w Hext
               Hhdr).
    unfold on4XX, on5XX, on200. rewrite Hst. cbn [Nat.leb Nat.eqb andb].
    cbv beta iota zeta
      delta [this_closest compile viewTransition replaceTarget try_catch bind
             get ret emit modify].
    rewrite Hp. cbv beta iota.
    assert (Hswap :
              replaceElements css html (_targetSelector w)
                (Some (uid anchor)) w
              = (Normal (Some new),
                 set_dom (plug k new :: rest ++ [anchor]) w)).
    { rewrite (replaceElements_anchor html _ (uid anchor) w p new Hp Hnew).
      rewrite Hdom, (replaceWith_plug k anchor new rest Hk Hrest).
      reflexivity. }
    destruct Hanchor as [Hc | [Hc Hself]]; rewrite ?Hc;
      cbv beta iota delta [option_map]; rewrite ?Hc;
      cbv beta iota delta [option_map]; rewrite <- ?Hself;
      destruct (hasViewTransitions w) eqn:Ev;
      cbv beta iota delta [negb]; try reflexivity;
      rewrite Hswap; reflexivity.
  - intros w' Hsel Hd. rewrite (Hrun w' Hsel).
    rewrite Hd, Hdom, (replaceWith_plug k anchor new rest Hk Hrest).
    reflexivity.
Qed.

End Patching.

Section Groups.

Variable css : string -> option (Node -> bool).
Variable origin_of : string -> option string.
Variable resolves : string -> bool.

(** Per-field validation when the group is there on both sides: the first
    matching group under the component is swapped for the first matching
    group of the response, whatever the status; a blur listener is bound to
    the first validate-enabled control of the new group and to no other;
    the form reference, the controllers and the log stay as they were. *)
Theorem field_validation_replaces_the_group :
  forall (response : Response) (html : Node) (target : HTMLInputElement)
         (w : World) (pg pv : Node -> bool)
         (oldGroup newGroup component : Node) (k : Ctx) (rest : Forest),
    redirected response
    && negb (isInternalUrl origin_of w (url response)) = false ->
    css (groupSelector (name target)) = Some pg ->
    css validateSelector = Some pv ->
    querySelector pg html = Some newGroup ->
    lookup (this w) (dom w) = Some component ->
    querySelector pg component = Some oldGroup ->
    dom w = plug k oldGroup :: rest ->
    ~ In (uid oldGroup) (ctx_ids k) ->
    ~ In (uid oldGroup) (uids rest) ->
    handleInputValidation_settle css origin_of target
      (FetchResolved response (Parsed html)) w
    = (Normal tt,
       let w1 := set_dom (plug k newGroup :: rest ++ [oldGroup]) w in
       match querySelector pv newGroup with
       | Some input => set_listeners (listeners w ++ [(uid input, Blur)]) w1
       | None => w1
       end).
Proof.
  intros response html target w pg pv oldGroup newGroup component k rest
    Hext Hpg Hpv Hnew Hthis Hold Hdom Hk Hrest.
  assert (Hrep : replaceElements css html (groupSelector (name target)) None w
                 = (Normal (Some newGroup),
                    set_dom (plug k newGroup :: rest ++ [oldGroup]) w)).
  { rewrite (replaceElements_run css html _ None w pg Hpg).
    rewrite Hnew. unfold currentElement. rewrite Hthis, Hold. simpl.
    rewrite Hdom, (replaceWith_plug k oldGroup newGroup rest Hk Hrest).
    reflexivity. }
  unfold handleInputValidation_settle, requestForm_settle.
  unfold try_catch. unfold bind at 1. unfold bind at 1. unfold get at 1.
  rewrite Hext. unfold ret at 1. cbv beta iota delta [snd].
  unfold bind at 1. rewrite Hrep.
  cbv beta iota zeta delta [compile bind ret bindEvents addEventListener
                            modify].
  rewrite Hpv. cbv beta iota.
  destruct (querySelector pv newGroup); reflexivity.
Qed.

End Groups.

Section Detached.

Variable css : string -> option (Node -> bool).
Variable origin_of : string -> option string.
Variable resolves : string -> bool.

Lemma descendants_plug_ids (k : Ctx) (x : Node) (y : nat) :
  In y (map uid (descendants (plug k x))) ->
  In y (ctx_ids k) \/ In y (map uid (nodes x)).
Proof.
  induction k as [u t a l r | u t a l k IH r]; simpl plug;
    rewrite descendants_children, flat_map_app, map_app; simpl ctx_ids;
    intro H; apply in_app_or in H; destruct H as [H | H].
  - left. right. apply in_or_app. left. exact H.
  - simpl in H. rewrite map_app in H. destruct H as [H | H].
    + right. left. exact H.
    + apply in_app_or in H. destruct H as [H | H].
      * right. right. exact H.
      * left. right. apply in_or_app. right. exact H.
  - left. right. apply in_or_app. left. exact H.
  - simpl in H. rewrite map_app in H. destruct H as [H | H].
    + left. right. apply in_or_app. right. apply in_or_app. left.
      destruct k; simpl in *; left; exact H.
    + apply in_app_or in H. destruct H as [H | H].
      * destruct (IH H) as [H' | H']; [| right; exact H'].
        left. right. apply in_or_app. right. apply in_or_app. left. exact H'.
      * left. right. apply in_or_app. right. apply in_or_app. right. exact H.
Qed.

Lemma hasParent_false (c : nat) (f : Forest) :
  (forall r, In r f -> ~ In c (map uid (descendants r))) ->
  hasParent c f = false.
Proof.
  intro H. unfold hasParent.
  destruct (existsb _ f) eqn:E; [| reflexivity]. exfalso.
  apply existsb_exists in E. destruct E as [r [Hr E]].
  apply existsb_exists in E. destruct E as [d [Hd E]].
  apply Nat.eqb_eq in E. apply (H r Hr).
  apply in_map_iff. exists d. auto.
Qed.

(** Once swapped out, the old node has no parent. *)
Lemma swapped_out_has_no_parent (k : Ctx) (old new : Node) (rest : Forest) :
  ~ In (uid old) (ctx_ids k) ->
  ~ In (uid old) (uids rest) ->
  ~ In (uid old) (map uid (nodes new)) ->
  ~ In (uid old) (map uid (descendants old)) ->
  hasParent (uid old) (plug k new :: rest ++ [old]) = false.
Proof.
  intros Hk Hrest Hnew Hown. apply hasParent_false.
  intros r [<- | Hr] Hin.
  - destruct (descendants_plug_ids k new _ Hin); contradiction.
  - apply in_app_or in Hr. destruct Hr as [Hr | [<- | []]].
    + apply Hrest. unfold uids, all_nodes.
      apply in_map_iff in Hin. destruct Hin as [d [Hd Hin]].
      apply in_map_iff. exists d. split; [exact Hd |].
      apply in_flat_map. exists r. split; [exact Hr |]. right. exact Hin.
    + contradiction.
Qed.

(** The component takes one server error.  The first 5XX response with a
    fail target swaps the component out of the document; after that the
    component has no parent, and a later 5XX response, whatever it holds,
    changes nothing: the second error never reaches the page. *)
Theorem component_takes_one_server_error :
  forall (r1 r2 : Response) (html1 html2 : Node) (w : World)
         (p : Node -> bool) (new component : Node) (k : Ctx) (rest : Forest),
    redirected r1 && negb (isInternalUrl origin_of w (url r1)) = false ->
    redirected r2 && negb (isInternalUrl origin_of w (url r2)) = false ->
    getHeader r1 EnhancedHeader.Redirect = None ->
    getHeader r2 EnhancedHeader.Redirect = None ->
    500 <= status r1 <= 599 ->
    500 <= status r2 <= 599 ->
    css (_failTargetSelector w) = Some p ->
    querySelector p html1 = Some new ->
    dom w = plug k component :: rest ->
    uid component = this w ->
    ~ In (this w) (ctx_ids k) ->
    ~ In (this w) (uids rest) ->
    ~ In (this w) (map uid (nodes new)) ->
    ~ In (this w) (map uid (descendants component)) ->
    let w1 := snd (handleFormValidation_settle css origin_of resolves
                     (FetchResolved r1 (Parsed html1)) w) in
    w1 = set_dom (plug k new :: rest ++ [component]) w
    /\ handleFormValidation_settle css origin_of resolves
         (FetchResolved r2 (Parsed html2)) w1
       = (Normal tt, w1).
Proof.
  intros r1 r2 html1 html2 w p new component k rest Hext1 Hext2 Hh1 Hh2
    Hst1 Hst2 Hp Hnew Hdom Hself Hk Hrest Hfresh Hown w1.
  rewrite <- Hself in Hk, Hrest, Hfresh, Hown.
  assert (H1 : handleFormValidation_settle css origin_of resolves
                 (FetchResolved r1 (Parsed html1)) w
               = (Normal tt, set_dom (plug k new :: rest ++ [component]) w)).
  { rewrite (settle_parsed_run css origin_of resolves r1 html1 w Hext1 Hh1).
    destruct (status_5XX _ Hst1) as [H4 [H5 H2]].
    unfold on4XX, on5XX, on200. rewrite H4, H5, H2.
    unfold try_catch, bind, get, ret.
    rewrite (replaceElements_anchor css html1 _ (this w) w p new Hp Hnew).
    rewrite <- Hself, Hdom.
    rewrite (replaceWith_plug k component new rest Hk Hrest). reflexivity. }
  assert (Hw1 : w1 = set_dom (plug k new :: rest ++ [component]) w).
  { subst w1. rewrite H1. reflexivity. }
  split; [exact Hw1 |].
  rewrite Hw1.
  set (w' := set_dom (plug k new :: rest ++ [component]) w).
  assert (Hext2' : redirected r2
                   && negb (isInternalUrl origin_of w' (url r2)) = false)
    by exact Hext2.
  rewrite (settle_parsed_run css origin_of resolves r2 html2 w' Hext2' Hh2).
  destruct (status_5XX _ Hst2) as [H4 [H5 H2]].
  unfold on4XX, on5XX, on200. rewrite H4, H5, H2.
  unfold try_catch, bind, get, ret.
  rewrite (replaceElements_run css html2 _ _ w' p Hp).
  destruct (querySelector p html2) as [n |]; [| reflexivity].
  simpl currentElement. cbv beta iota.
  assert (Hd : forall c, hasParent c (dom w') = false ->
                         set_dom (replaceWith c n (dom w')) w' = w').
  { intros c Hc. rewrite (replaceWith_detached c n _ Hc).
    subst w'. destruct w; reflexivity. }
  rewrite Hd; [reflexivity |].
  change (hasParent (this w) (plug k new :: rest ++ [component]) = false).
  rewrite <- Hself. apply swapped_out_has_no_parent; assumption.
Qed.

End Detached.

(** * What the component never undoes *)

Section Grows.

Context {X : Type} (obs : World -> list X).

Lemma grows_ret {A} (a : A) : grows obs (ret a).
Proof. intro w. exists []. simpl. rewrite app_nil_r. reflexivity. Qed.

Lemma grows_throw {A} (e : JsError) : grows obs (@throw A e).
Proof. intro w. exists []. simpl. rewrite app_nil_r. reflexivity. Qed.

Lemma grows_get : grows obs get.
Proof. intro w. exists []. simpl. rewrite app_nil_r. reflexivity. Qed.

Lemma grows_lift {A} (c : Completion A) : grows obs (lift c).
Proof. intro w. exists []. simpl. rewrite app_nil_r. reflexivity. Qed.

Lemma grows_modify (f : World -> World) :
  (forall w, exists l, obs (f w) = obs w ++ l) -> grows obs (modify f).
Proof. intros H w. apply H. Qed.

Lemma grows_bind {A B} (m : Js A) (k : A -> Js B) :
  grows obs m -> (forall a, grows obs (k a)) -> grows obs (bind m k).
Proof.
  intros Hm Hk w. unfold bind. destruct (Hm w) as [l1 H1].
  destruct (m w) as [[a | e] w']; simpl in *.
  - destruct (Hk a w') as [l2 H2]. exists (l1 ++ l2).
    rewrite H2, H1, app_assoc. reflexivity.
  - exists l1. exact H1.
Qed.

Lemma grows_try_catch {A} (m : Js A) (h : JsError -> Js A) :
  grows obs m -> (forall e, grows obs (h e)) -> grows obs (try_catch m h).
Proof.
  intros Hm Hh w. unfold try_catch. destruct (Hm w) as [l1 H1].
  destruct (m w) as [[a | e] w']; simpl in *.
  - exists l1. exact H1.
  - destruct (Hh e w') as [l2 H2]. exists (l1 ++ l2).
    rewrite H2, H1, app_assoc. reflexivity.
Qed.

Lemma grows_forEach {A} (f : A -> Js unit) (l : list A) :
  (forall a, grows obs (f a)) -> grows obs (forEach f l).
Proof.
  intros Hf. induction l as [| x r IH]; simpl.
  - apply grows_ret.
  - apply grows_bind; auto.
Qed.

Lemma keeps_grows {A} (m : Js A) : keeps obs m -> grows obs m.
Proof.
  intros H w. exists []. rewrite app_nil_r. apply H.
Qed.

End Grows.

Ltac grows_step :=
  first
    [ apply grows_ret
    | apply grows_throw
    | apply grows_get
    | apply grows_lift
    | apply grows_bind; [| intros ]
    | apply grows_try_catch; [| intros ]
    | apply grows_forEach; intros
    | match goal with
      | |- grows _ (match ?x with _ => _ end) => destruct x
      | |- grows _ (if ?b then _ else _) => destruct b
      end ].

(** Close the state updates: either the list is untouched or one element
    is appended. *)
Ltac grows_updates :=
  try (apply grows_modify; intros; simpl;
       first [ eexists; reflexivity
             | exists []; rewrite app_nil_r; reflexivity ]).

Ltac grows_auto := unfold_component; repeat grows_step; grows_updates.

Section Monotone.

Variable css : string -> option (Node -> bool).
Variable origin_of : string -> option string.
Variable resolves : string -> bool.

(** No step ever removes a listener: the listeners bound to a form or a
    group that has since been replaced stay bound to the detached nodes, and
    every new binding is added after them. *)
Theorem listeners_are_never_removed :
  forall (st : Step) (w : World),
    exists added,
      listeners (step css origin_of resolves st w) = listeners w ++ added.
Proof.
  intros st w. destruct st as [| t | t s | | s | html target]; unfold step.
  - assert (H : grows listeners (connectedCallback css)) by grows_auto.
    apply H.
  - apply (keeps_grows listeners). intro w0.
    pose proof (blur_send_keeps_page t w0) as H. unfold page_state in H.
    injection H as _ _ H. exact H.
  - assert (H : grows listeners
                  (handleInputValidation_settle css origin_of t s))
      by grows_auto.
    apply H.
  - apply (keeps_grows listeners). intro w0.
    pose proof (submit_send_keeps_page w0) as H. unfold page_state in H.
    injection H as _ _ H. exact H.
  - assert (H : grows listeners (submitListener_settle css origin_of resolves s))
      by grows_auto.
    apply H.
  - assert (H : grows listeners (transitionCallback css html target))
      by grows_auto.
    apply H.
Qed.

End Monotone.

Section Bookkeeping.

Variable css : string -> option (Node -> bool).
Variable origin_of : string -> option string.
Variable resolves : string -> bool.

Lemma mark_aborted_fixed why a : aborted a = true -> mark_aborted why a = a.
Proof. intro H. unfold mark_aborted. rewrite H. reflexivity. Qed.

Lemma Map_get_set_defined k k' v m c :
  Map_get k m = Some c -> exists c', Map_get k (Map_set k' v m) = Some c'.
Proof.
  intro H. destruct (String.eqb k' k) eqn:E.
  - apply String.eqb_eq in E. subst k'. exists v. apply Map_get_set_same.
  - apply String.eqb_neq in E. exists c.
    rewrite Map_get_set_other by congruence. exact H.
Qed.

(** Tokens are never released: no step removes a key from the controller
    map or a controller from the browser, and an aborted controller stays
    aborted with the reason of its first abort. *)
Theorem tokens_are_never_released :
  forall (st : Step) (w : World),
    (forall k c,
        Map_get k (controllers w) = Some c ->
        exists c', Map_get k (controllers (step css origin_of resolves st w)) = Some c')
    /\ length (aborts w) <= length (aborts (step css origin_of resolves st w))
    /\ (forall i a,
           nth_error (aborts w) i = Some a -> aborted a = true ->
           nth_error (aborts (step css origin_of resolves st w)) i = Some a).
Proof.
  intros st w.
  assert (Hsame : forall w', tokens w' = tokens w ->
            (forall k c, Map_get k (controllers w) = Some c ->
                         exists c', Map_get k (controllers w') = Some c')
            /\ length (aborts w) <= length (aborts w')
            /\ (forall i a, nth_error (aborts w) i = Some a ->
                            aborted a = true ->
                            nth_error (aborts w') i = Some a)).
  { unfold tokens. intros w' H. injection H as -> ->. repeat split; eauto. }
  destruct st as [| t | t s | | s | html target].
  - apply Hsame. apply connectedCallback_keeps_tokens.
  - destruct (value t) as [| x v] eqn:Ev.
    + unfold step, handleInputValidation_send. rewrite Ev.
      apply Hsame. reflexivity.
    + assert (Hv : value t <> EmptyString) by (rewrite Ev; discriminate).
      destruct (blur_sent_run css origin_of resolves t w Hv) as [Hm [Ha _]].
      rewrite Hm, Ha. repeat split.
      * intros k c Hk. eapply Map_get_set_defined; eauto.
      * rewrite length_app. destruct (Map_get (name t) (controllers w));
          rewrite ?length_update; lia.
      * intros i a Hn Hab.
        assert (Hlt : i < length (aborts w))
          by (apply nth_error_Some; rewrite Hn; discriminate).
        destruct (Map_get (name t) (controllers w)) as [c0 |].
        -- rewrite nth_error_app1 by (rewrite length_update; exact Hlt).
           rewrite nth_error_update, Hn.
           destruct (Nat.eqb i c0); simpl; [| reflexivity].
           rewrite mark_aborted_fixed by exact Hab. reflexivity.
        -- rewrite nth_error_app1 by exact Hlt. exact Hn.
  - apply Hsame. apply blur_settle_keeps_tokens.
  - destruct (submit_sent_run css origin_of resolves w) as [Hm [Ha _]].
    rewrite Hm, Ha. repeat split.
    + intros k c Hk. eapply Map_get_set_defined; eauto.
    + rewrite length_app, length_cancel_all. lia.
    + intros i a Hn Hab.
      assert (Hlt : i < length (aborts w))
        by (apply nth_error_Some; rewrite Hn; discriminate).
      rewrite nth_error_app1 by (rewrite length_cancel_all; exact Hlt).
      rewrite nth_error_cancel_all, Hn. simpl.
      destruct (existsb _ _); [| reflexivity].
      rewrite mark_aborted_fixed by exact Hab. reflexivity.
  - apply Hsame. apply submit_settle_keeps_tokens.
  - apply Hsame. apply transition_keeps_tokens.
Qed.

Lemma addHeader_throws (name value : string) (e : JsError) :
  addHeader name value = Throw e -> e = TypeError.
Proof.
  unfold addHeader. destruct (header_value (normalize value)); congruence.
Qed.

Lemma requests_of_aborts (l : list (string * nat)) :
  requests (map (fun kc => Abort (snd kc) None) l) = [].
Proof. induction l as [| kc l IH]; simpl; auto. Qed.






(** Attaching the element again binds everything again: after two
    [connectedCallback]s the form has two submit listeners and each
    validate-enabled control two blur listeners, so that one blur then sends
    two requests. *)
Theorem reconnecting_binds_again :
  forall (w : World) (f : Node) (pv : Node -> bool),
    css validateSelector = Some pv ->
    _form w = Some (uid f) ->
    lookup (uid f) (dom w) = Some f ->
    let bound :=
      (uid f, Submit)
      :: map (fun i => (uid i, Blur)) (querySelectorAll pv f) in
    listeners (steps css origin_of resolves [Connected; Connected] w)
    = listeners w ++ bound ++ bound.
Proof.
  intros w f pv Hpv Hf Hl bound.
  change (listeners
            (snd (connectedCallback css (snd (connectedCallback css w))))
          = listeners w ++ bound ++ bound).
  unfold connectedCallback.
  rewrite (bindEvents_run css w f pv Hpv Hf Hl).
  cbv beta iota delta [snd].
  rewrite (bindEvents_run css _ f pv Hpv); [| exact Hf | exact Hl].
  simpl. rewrite <- app_assoc. reflexivity.
Qed.

(** The submit listener runs [focusFirstInvalidInput] whatever the handler
    did: after a failed request, the warning is followed by the focus on the
    first invalid control of the form as it stands. *)
Theorem submit_listener_focuses_after_a_failure :
  forall (s : Settlement) (w : World) (e : JsError) (f el : Node)
         (pi : Node -> bool),
    failure origin_of w s = Some e ->
    css invalidSelector = Some pi ->
    _form w = Some (uid f) ->
    lookup (uid f) (dom w) = Some f ->
    querySelector pi f = Some el ->
    has_setSelectionRange el = true ->
    selection_applies el = true ->
    submitListener_settle css origin_of resolves s w
    = (Normal tt,
       set_log
         (log w ++ [ConsoleWarn e; Focus (uid el);
                    SetSelectionRange (uid el) (-1) (-1)]) w).
Proof.
  intros s w e f el pi Hfail Hpi Hf Hl Hq Hhas Happ.
  unfold submitListener_settle.
  rewrite (bind_normal _ _ _ _ _ (submit_settle_failure css origin_of resolves s w e Hfail)).
  unfold focusFirstInvalidInput, form_ref, querySelector_of, compile.
  rewrite Hpi. unfold bind, get, ret, emit, modify, throw.
  change (_form (set_log (log w ++ [ConsoleWarn e]) w)) with (_form w).
  rewrite Hf.
  change (dom (set_log (log w ++ [ConsoleWarn e]) w)) with (dom w).
  rewrite Hl, Hq. cbv beta iota.
  rewrite Hhas, Happ. unfold set_log; simpl.
  rewrite <- !app_assoc. reflexivity.
Qed.

(** With a null form reference the component is dead: a submit and a blur
    on a non-empty field still cancel and register controllers, but
    [requestForm] throws before the fetch, so that the handler only logs a
    type error and never looks at a response; the submit listener then
    throws that error to its caller from [focusFirstInvalidInput]. *)
Theorem null_form_reference_disables_the_component :
  forall (w : World) (t : HTMLInputElement) (s : Settlement),
    _form w = None ->
    value t <> EmptyString ->
    handleFormValidation css origin_of resolves s w
    = (Normal tt, step css origin_of resolves SubmitSent w)
    /\ handleInputValidation css origin_of t s w
       = (Normal tt, step css origin_of resolves (BlurSent t) w)
    /\ fst (submitListener css origin_of resolves s w) = Throw TypeError
    /\ (exists l, log (step css origin_of resolves SubmitSent w)
                  = l ++ [ConsoleWarn TypeError])
    /\ (exists l, log (step css origin_of resolves (BlurSent t) w)
                  = l ++ [ConsoleWarn TypeError])
    /\ sent (step css origin_of resolves SubmitSent w) = sent w
    /\ sent (step css origin_of resolves (BlurSent t) w) = sent w.
Proof.
  intros w t s Hnull Hv.
  assert (Hsub : handleFormValidation_send w
                 = (Normal false, step css origin_of resolves SubmitSent w)).
  { unfold step. rewrite (submit_send_eq w). cbv zeta. rewrite Hnull.
    reflexivity. }
  assert (Hblur : handleInputValidation_send t w
                  = (Normal false, step css origin_of resolves (BlurSent t) w)).
  { unfold step, handleInputValidation_send.
    destruct (value t) as [| x v]; [contradiction |].
    unfold bind, get, abort, register, requestForm_send, form_ref, try_catch,
      warn, emit, modify, bind, ret, throw, lift.
    destruct (Map_get (name t) (controllers w));
      destruct (addHeader EnhancedHeader.Validate (name t));
      simpl; rewrite ?Hnull; reflexivity. }
  destruct (submit_sent_run css origin_of resolves w) as [_ [_ [Hl1 Hf1]]].
  destruct (blur_sent_run css origin_of resolves t w Hv) as [_ [_ [Hl2 _]]].
  rewrite Hnull in Hl1, Hl2, Hf1.
  split; [| split; [| split; [| split; [| split; [| split]]]]].
  - unfold handleFormValidation. rewrite (bind_normal _ _ _ _ _ Hsub).
    reflexivity.
  - unfold handleInputValidation. rewrite (bind_normal _ _ _ _ _ Hblur).
    reflexivity.
  - unfold submitListener, handleFormValidation.
    unfold bind at 1. unfold bind at 1. rewrite Hsub.
    unfold ret at 1. unfold focusFirstInvalidInput, form_ref.
    unfold bind, get. rewrite Hf1. reflexivity.
  - eexists. rewrite Hl1, !app_assoc. reflexivity.
  - eexists. rewrite Hl2, !app_assoc.
    destruct (addHeader EnhancedHeader.Validate (name t)) as [h | e] eqn:Eh;
      [reflexivity |].
    rewrite (addHeader_throws _ _ _ Eh). reflexivity.
  - unfold sent. rewrite Hl1, !requests_app, requests_of_aborts. simpl.
    rewrite !app_nil_r. reflexivity.
  - unfold sent. rewrite Hl2, !requests_app.
    destruct (Map_get (name t) (controllers w));
      destruct (addHeader EnhancedHeader.Validate (name t)); simpl;
      rewrite !app_nil_r; reflexivity.
Qed.

End Bookkeeping.

(** * Construction *)

Section Construction.

Variable css : string -> option (Node -> bool).

(** The constructor fails with the configuration error exactly when the
    element has no form below it; otherwise the instance refers to the first
    form below the element, on the page as it is, with no controller, no
    listener bound yet and nothing logged. *)
Theorem constructor_requires_a_form :
  forall (page : Page) (self : nat) (el : Node) (pf : Node -> bool),
    lookup self (page_dom page) = Some el ->
    css "form" = Some pf ->
    (querySelector pf el = None ->
     constructor css page self
     = Throw (Error "No form found in <enhance-form>"))
    /\ (forall f,
           querySelector pf el = Some f ->
           exists w,
             constructor css page self = Normal w
             /\ _form w = Some (uid f) /\ this w = self
             /\ dom w = page_dom page
             /\ controllers w = [] /\ aborts w = []
             /\ listeners w = [] /\ log w = []).
Proof.
  intros page self el pf Hel Hpf. unfold constructor. rewrite Hel, Hpf.
  split.
  - intros ->. reflexivity.
  - intros f ->. eexists. repeat split.
Qed.

(** The two selectors of an instance: [target] is the attribute or the
    empty text; [fail-target] is its own attribute when that is a non-empty
    text, else the same as [target] (also when the attribute is present but
    empty). *)
Theorem fail_target_defaults_to_target :
  forall (page : Page) (self : nat) (el : Node) (w : World),
    lookup self (page_dom page) = Some el ->
    constructor css page self = Normal w ->
    _targetSelector w
    = (if truthy (getAttribute "target" el)
       then or_empty (getAttribute "target" el) else EmptyString)
    /\ _failTargetSelector w
       = (if truthy (getAttribute "fail-target" el)
          then or_empty (getAttribute "fail-target" el)
          else _targetSelector w).
Proof.
  intros page self el w Hel. unfold constructor. rewrite Hel.
  destruct (css "form") as [pf |]; [| discriminate].
  destruct (querySelector pf el) as [f |]; [| discriminate].
  intro H. injection H as <-. simpl. unfold or_else.
  destruct (truthy (getAttribute "fail-target" el));
    destruct (truthy (getAttribute "target" el)); split; reflexivity.
Qed.

End Construction.

(** * The component against the demo server *)

Section ClientAndServer.

Variable css : string -> option (Node -> bool).
Variable origin_of : string -> option string.
Variable resolves : string -> bool.

Variables (Data ZodError FlatErrors RawResponse : Type).
Variable flattenError : ZodError -> FlatErrors.
Variable onSubmit :
  Data -> list (string * string) -> Server.OnSubmitResult RawResponse.

Lemma joined_values_truthy (vs : list string) (c : ascii) (v : string) :
  truthy
    (Some (fold_left (fun acc x => String.append acc (String.append ", " x))
             vs (String c v))) = true.
Proof.
  revert v. induction vs as [| x vs IH]; intro v; simpl; [reflexivity |].
  apply IH.
Qed.

Lemma validation_header_is_seen (field : string)
    (others : list (string * string)) :
  field <> EmptyString ->
  Server.isInlineValidation ((EnhancedHeader.Validate, field) :: others)
  = true.
Proof.
  intro Hne. unfold Server.isInlineValidation. apply orb_true_iff. right.
  unfold Server.header, Server.header_values.
  change (filter _ ((EnhancedHeader.Validate, field) :: others))
    with ((EnhancedHeader.Validate, field)
          :: filter
               (fun kv => String.eqb (Server.lowercase (fst kv))
                            (Server.lowercase "X-Enhance-Validate")) others).
  simpl map. destruct field as [| c v]; [contradiction |].
  apply joined_values_truthy.
Qed.

Lemma other_header_is_not_validation (k v : string)
    (others : list (string * string)) :
  String.eqb (Server.lowercase k) (Server.lowercase "X-Up-Validate") = false ->
  String.eqb (Server.lowercase k) (Server.lowercase "X-Enhance-Validate")
  = false ->
  Server.isInlineValidation ((k, v) :: others)
  = Server.isInlineValidation others.
Proof.
  intros H1 H2.
  unfold Server.isInlineValidation, Server.header, Server.header_values.
  cbn [filter fst]. rewrite H1, H2. reflexivity.
Qed.

(** A per-field validation request of the component for a named field
    never reaches [onSubmit] on the demo server.  The name is one that
    [Headers.append] takes (no NUL, LF or CR once the surrounding whitespace
    is stripped) and that is not empty when stripped: the request carries
    the validation header with the stripped name, the handler takes it for
    an inline validation and answers with the form, status 200 for data the
    schema accepts and 422 with the field errors otherwise. *)
Theorem field_validation_never_reaches_onSubmit :
  forall (t : HTMLInputElement) (w : World) (f : nat)
         (others : list (string * string))
         (result : Server.ZodResult Data ZodError),
    value t <> EmptyString ->
    header_value (normalize (name t)) = true ->
    normalize (name t) <> EmptyString ->
    _form w = Some f ->
    let h := (EnhancedHeader.Validate, normalize (name t)) in
    sent (step css origin_of resolves (BlurSent t) w) = sent w ++ [h]
    /\ Server.createPostHandler flattenError onSubmit result (h :: others)
       = match result with
         | Server.Success d =>
             (Server.Render 200
                (Server.mkProps (Some d) None None), [])
         | Server.Failure d e =>
             (Server.Render 422
                (Server.mkProps (Some d) (Some (flattenError e)) None), [])
         end.
Proof.
  intros t w f others result Hv Hok Hn Hf h. split.
  - destruct (blur_sent_run css origin_of resolves t w Hv) as [_ [_ [Hl _]]].
    unfold sent. rewrite Hl, Hf, !requests_app.
    unfold addHeader. rewrite Hok.
    destruct (Map_get (name t) (controllers w)); reflexivity.
  - unfold Server.createPostHandler. destruct result as [d | d e];
      [| reflexivity].
    subst h. rewrite (validation_header_is_seen _ others Hn).
    reflexivity.
Qed.

(** A submission request of the component carries the submission header,
    which the demo server does not take for an inline validation: for data
    the schema accepts [onSubmit] runs once and decides the response (a
    network redirect with status 302, the form with status 422 and the error
    message, or the application's own response); for other data the form
    comes back with status 422 and [onSubmit] does not run. *)
Theorem submission_reaches_onSubmit_when_valid :
  forall (w : World) (f : nat) (others : list (string * string))
         (result : Server.ZodResult Data ZodError),
    _form w = Some f ->
    Server.isInlineValidation others = false ->
    let h := (EnhancedHeader.Submit, "form") in
    sent (step css origin_of resolves SubmitSent w) = sent w ++ [h]
    /\ Server.createPostHandler flattenError onSubmit result (h :: others)
       = match result with
         | Server.Success d =>
             (match onSubmit d (h :: others) with
              | Server.response r => Server.Raw r
              | Server.error message =>
                  Server.Render 422
                    (Server.mkProps (Some d) None (Some message))
              | Server.redirect path =>
                  Server.Redirect 302 path
              end, [d])
         | Server.Failure d e =>
             (Server.Render 422
                (Server.mkProps (Some d) (Some (flattenError e)) None), [])
         end.
Proof.
  intros w f others result Hf Hothers h. split.
  - destruct (submit_sent_run css origin_of resolves w) as [_ [_ [Hl _]]].
    unfold sent. rewrite Hl, Hf, !requests_app. simpl.
    rewrite requests_of_aborts. reflexivity.
  - unfold Server.createPostHandler. destruct result as [d | d e];
      [| reflexivity].
    subst h.
    rewrite (other_header_is_not_validation EnhancedHeader.Submit "form"
               others) by reflexivity.
    rewrite Hothers. reflexivity.
Qed.

(** The validation of a control without name.  The component sends the
    validation header with an empty value; the demo server tests the header
    for truthiness, takes the request for a submission and, when the schema
    accepts the data, runs [onSubmit] on a mere blur. *)
Theorem nameless_field_validation_is_taken_for_a_submission :
  forall (t : HTMLInputElement) (w : World) (f : nat)
         (others : list (string * string)) (d : Data),
    value t <> EmptyString ->
    name t = EmptyString ->
    _form w = Some f ->
    Server.header_values "X-Up-Validate" others = [] ->
    Server.header_values "X-Enhance-Validate" others = [] ->
    let h := (EnhancedHeader.Validate, EmptyString) in
    sent (step css origin_of resolves (BlurSent t) w) = sent w ++ [h]
    /\ Server.isInlineValidation (h :: others) = false
    /\ snd (Server.createPostHandler flattenError onSubmit
              (Server.Success d) (h :: others))
       = [d].
Proof.
  intros t w f others d Hv Hn Hf Hup Hen h.
  assert (Hinline : Server.isInlineValidation (h :: others) = false).
  { subst h. unfold Server.isInlineValidation, Server.header.
    unfold Server.header_values in *. cbn [filter fst].
    change (String.eqb (Server.lowercase EnhancedHeader.Validate)
              (Server.lowercase "X-Up-Validate")) with false.
    change (String.eqb (Server.lowercase EnhancedHeader.Validate)
              (Server.lowercase "X-Enhance-Validate")) with true.
    cbv beta iota. rewrite Hup. cbn [map snd]. rewrite Hen. reflexivity. }
  split; [| split].
  - destruct (blur_sent_run css origin_of resolves t w Hv) as [_ [_ [Hl _]]].
    unfold sent. rewrite Hl, Hf, Hn, !requests_app.
    change (addHeader EnhancedHeader.Validate EmptyString)
      with (Normal (A := string * string) h).
    destruct (Map_get EmptyString (controllers w)); reflexivity.
  - exact Hinline.
  - unfold Server.createPostHandler. rewrite Hinline. reflexivity.
Qed.

End ClientAndServer.

(** * The further properties on the sample pages *)

Lemma other_statuses_are_ignored_witness :
  status (Sample.response 204 []) <> 200
  /\ handleFormValidation_settle Sample.css Sample.origin_of Sample.resolves
       (FetchResolved (Sample.response 204 []) (Parsed Sample.errors_html))
       Sample.readme_world
     = (Normal tt, Sample.readme_world).
Proof.
  split; [discriminate |].
  apply (other_statuses_are_ignored Sample.css Sample.origin_of Sample.resolves).
  - reflexivity.
  - reflexivity.
  - discriminate.
  - simpl. lia.
Defined.

Lemma external_redirect_navigates_away_witness :
  isInternalUrl Sample.origin_of Sample.readme_world (url external_response)
  = false
  /\ handleFormValidation_settle Sample.css Sample.origin_of Sample.resolves
       (FetchResolved external_response (TextRejected NetworkFailure))
       Sample.readme_world
     = (Normal tt,
        set_log [LocationAssign "https://pay.example/checkout"]
          Sample.readme_world)
  /\ handleFormValidation_settle Sample.css Sample.origin_of Sample.resolves
       (FetchResolved
          (mkResponse 200 true "https://pay.example/checkout"
             [("x-enhance-redirect", "https://")])
          (TextRejected NetworkFailure))
       Sample.readme_world
     = (Normal tt,
        set_log
          [LocationAssign "https://pay.example/checkout";
           LocationAssign "https://";
           ConsoleWarn (SyntaxError "https://")]
          Sample.readme_world).
Proof.
  split; [reflexivity |]. split.
  - destruct (external_redirect_navigates_away Sample.css Sample.origin_of
                Sample.resolves
                external_response (TextRejected NetworkFailure)
                (mkInput "email" "a") Sample.readme_world)
      as [_ H].
    + reflexivity.
    + reflexivity.
    + exact H.
  - destruct (external_redirect_navigates_away Sample.css Sample.origin_of
                Sample.resolves
                (mkResponse 200 true "https://pay.example/checkout"
                   [("x-enhance-redirect", "https://")])
                (TextRejected NetworkFailure)
                (mkInput "email" "a") Sample.readme_world)
      as [_ H].
    + reflexivity.
    + reflexivity.
    + exact H.
Defined.

Lemma internal_redirect_is_transparent_witness :
  isInternalUrl Sample.origin_of Sample.readme_world
    (url (Sample.response 200 [])) = true
  /\ handleFormValidation_settle Sample.css Sample.origin_of Sample.resolves
       (FetchResolved (with_redirected true (Sample.response 200 []))
          (Parsed Sample.errors_html))
       Sample.readme_world
     = handleFormValidation_settle Sample.css Sample.origin_of Sample.resolves
         (FetchResolved (Sample.response 200 []) (Parsed Sample.errors_html))
         Sample.readme_world.
Proof.
  split; [reflexivity |].
  destruct (internal_redirect_is_transparent Sample.css Sample.origin_of Sample.resolves
              (Sample.response 200 []) (Parsed Sample.errors_html)
              (mkInput "email" "a") Sample.readme_world true)
    as [_ H].
  - reflexivity.
  - exact H.
Defined.

Lemma field_validation_ignores_status_and_headers_witness :
  handleInputValidation_settle Sample.css Sample.origin_of
    (mkInput "name" "R2")
    (FetchResolved (Sample.response 200 []) (Parsed Sample.invalid_form_html))
    Sample.readme_world
  = handleInputValidation_settle Sample.css Sample.origin_of
      (mkInput "name" "R2")
      (FetchResolved (Sample.response 500 (redirect_to "/thanks"))
         (Parsed Sample.invalid_form_html))
      Sample.readme_world.
Proof.
  apply (field_validation_ignores_status_and_headers Sample.css
           Sample.origin_of).
  - reflexivity.
  - reflexivity.
Defined.

Lemma field_validation_without_group_is_a_no_op_witness :
  querySelector (Sample.is_group "email") Sample.plain_html = None
  /\ handleInputValidation_settle Sample.css Sample.origin_of
       (mkInput "email" "a")
       (FetchResolved (Sample.response 200 []) (Parsed Sample.plain_html))
       Sample.readme_world
     = (Normal tt, Sample.readme_world).
Proof.
  split; [reflexivity |].
  apply (field_validation_without_group_is_a_no_op Sample.css
           Sample.origin_of (Sample.response 200 []) Sample.plain_html
           (mkInput "email" "a") Sample.readme_world
           (Sample.is_group "email")).
  - reflexivity.
  - reflexivity.
  - left. reflexivity.
Defined.

Lemma response_without_target_is_a_no_op_witness :
  querySelector (Sample.attr_is "id" "errors") Sample.plain_html = None
  /\ handleFormValidation_settle Sample.css Sample.origin_of Sample.resolves
       (FetchResolved (Sample.response 503 []) (Parsed Sample.plain_html))
       Sample.readme_world
     = (Normal tt, Sample.readme_world).
Proof.
  split; [reflexivity |].
  destruct (response_without_target_is_a_no_op Sample.css Sample.origin_of Sample.resolves
              (Sample.response 503 []) Sample.plain_html Sample.readme_world)
    as [H _].
  - reflexivity.
  - reflexivity.
  - apply (H (Sample.attr_is "id" "errors")).
    + simpl. lia.
    + reflexivity.
    + reflexivity.
Defined.

Lemma invalid_target_selector_only_warns_witness :
  constructor Sample.css Sample.bare_page 10 = Normal Sample.bare_world
  /\ Sample.css (_targetSelector Sample.bare_world) = None
  /\ handleFormValidation_settle Sample.css Sample.origin_of Sample.resolves
       (FetchResolved (Sample.response 200 []) (Parsed Sample.success_html))
       Sample.bare_world
     = (Normal tt,
        set_log [ConsoleWarn (SyntaxError EmptyString)] Sample.bare_world).
Proof.
  split; [reflexivity | split; [reflexivity |]].
  destruct (invalid_target_selector_only_warns Sample.css Sample.origin_of Sample.resolves
              (Sample.response 200 []) Sample.success_html Sample.bare_world)
    as [H _].
  - reflexivity.
  - reflexivity.
  - apply H; reflexivity.
Defined.

Lemma success_replaces_the_anchor_witness :
  plug demo_main_context (Sample.el 5 "main" [] [Sample.demo_component])
  = Sample.demo_document
  /\ handleFormValidation_settle Sample.css Sample.origin_of Sample.resolves
       (FetchResolved (Sample.response 200 []) (Parsed Sample.success_html))
       Sample.demo_world
     = (Normal tt,
        set_log [StartViewTransition Sample.success_html (Some 5)]
          Sample.demo_world)
  /\ step Sample.css Sample.origin_of Sample.resolves
       (TransitionRun Sample.success_html (Some 5))
       (set_log [StartViewTransition Sample.success_html (Some 5)]
          Sample.demo_world)
     = set_dom
         [plug demo_main_context Sample.success_main;
          Sample.el 5 "main" [] [Sample.demo_component]]
         (set_log [StartViewTransition Sample.success_html (Some 5)]
            Sample.demo_world).
Proof.
  split; [reflexivity |].
  destruct (success_replaces_the_anchor Sample.css Sample.origin_of
              Sample.resolves
              (Sample.response 200 []) Sample.success_html Sample.demo_world
              (fun n => String.eqb (tagName n) "main")
              Sample.success_main
              (Sample.el 5 "main" [] [Sample.demo_component])
              demo_main_context [])
    as [H1 [_ H3]].
  - reflexivity.
  - reflexivity.
  - reflexivity.
  - reflexivity.
  - reflexivity.
  - left. reflexivity.
  - reflexivity.
  - vm_compute. intuition discriminate.
  - simpl. intros [].
  - split; [exact H1 |]. apply H3; reflexivity.
Defined.

Lemma field_validation_replaces_the_group_witness :
  plug readme_group_context readme_name_group = Sample.readme_document
  /\ handleInputValidation_settle Sample.css Sample.origin_of
       (mkInput "name" "R2")
       (FetchResolved (Sample.response 422 [])
          (Parsed Sample.invalid_form_html))
       Sample.readme_world
     = (Normal tt,
        set_listeners [(117, Blur)]
          (set_dom
             [plug readme_group_context Sample.invalid_group;
              readme_name_group]
             Sample.readme_world)).
Proof.
  split; [reflexivity |].
  apply (field_validation_replaces_the_group Sample.css Sample.origin_of
           (Sample.response 422 []) Sample.invalid_form_html
           (mkInput "name" "R2") Sample.readme_world
           (Sample.is_group "name") Sample.is_validate
           readme_name_group Sample.invalid_group Sample.readme_component
           readme_group_context []).
  - reflexivity.
  - reflexivity.
  - reflexivity.
  - reflexivity.
  - reflexivity.
  - reflexivity.
  - reflexivity.
  - vm_compute. intuition discriminate.
  - simpl. intros [].
Defined.

Lemma component_takes_one_server_error_witness :
  plug readme_component_context Sample.readme_component
  = Sample.readme_document
  /\ handleFormValidation_settle Sample.css Sample.origin_of Sample.resolves
       (FetchResolved (Sample.response 503 [])
          (Parsed Sample.errors_html))
       (snd (handleFormValidation_settle Sample.css Sample.origin_of Sample.resolves
               (FetchResolved (Sample.response 500 [])
                  (Parsed Sample.errors_html))
               Sample.readme_world))
     = (Normal tt,
        snd (handleFormValidation_settle Sample.css Sample.origin_of Sample.resolves
               (FetchResolved (Sample.response 500 [])
                  (Parsed Sample.errors_html))
               Sample.readme_world)).
Proof.
  split; [reflexivity |].
  destruct (component_takes_one_server_error Sample.css Sample.origin_of Sample.resolves
              (Sample.response 500 []) (Sample.response 503 [])
              Sample.errors_html Sample.errors_html Sample.readme_world
              (Sample.attr_is "id" "errors")
              (Sample.el 121 "div" [("id", "errors")]
                 [Sample.el 122 "p" [] []])
              Sample.readme_component readme_component_context [])
    as [_ H].
  - reflexivity.
  - reflexivity.
  - reflexivity.
  - reflexivity.
  - simpl. lia.
  - simpl. lia.
  - reflexivity.
  - reflexivity.
  - reflexivity.
  - reflexivity.
  - vm_compute. intuition discriminate.
  - simpl. intros [].
  - vm_compute. intuition discriminate.
  - vm_compute. intuition discriminate.
  - exact H.
Defined.

Lemma tokens_are_never_released_witness :
  let w1 := step Sample.css Sample.origin_of Sample.resolves
              (BlurSent (mkInput "email" "a")) Sample.readme_world in
  let w2 := step Sample.css Sample.origin_of Sample.resolves SubmitSent w1 in
  let w3 := step Sample.css Sample.origin_of Sample.resolves
              (BlurSent (mkInput "email" "ab")) w2 in
  nth_error (aborts w2) 0 = Some (mkController "email" true (Some AbortError))
  /\ nth_error (aborts w3) 0
     = Some (mkController "email" true (Some AbortError))
  /\ map fst (controllers w3) = ["email"; "form"].
Proof.
  cbv zeta. split; [reflexivity |]. split; [| reflexivity].
  destruct (tokens_are_never_released Sample.css Sample.origin_of Sample.resolves
              (BlurSent (mkInput "email" "ab"))
              (step Sample.css Sample.origin_of Sample.resolves SubmitSent
                 (step Sample.css Sample.origin_of Sample.resolves
                    (BlurSent (mkInput "email" "a")) Sample.readme_world)))
    as [_ [_ H]].
  apply H; reflexivity.
Defined.

Lemma reconnecting_binds_again_witness :
  lookup 11 (dom Sample.readme_world) = Some Sample.readme_form
  /\ listeners
       (steps Sample.css Sample.origin_of Sample.resolves [Connected; Connected]
          Sample.readme_world)
     = [(11, Submit); (14, Blur); (17, Blur);
        (11, Submit); (14, Blur); (17, Blur)].
Proof.
  split; [reflexivity |].
  apply (reconnecting_binds_again Sample.css Sample.origin_of Sample.resolves
           Sample.readme_world Sample.readme_form Sample.is_validate).
  - reflexivity.
  - reflexivity.
  - reflexivity.
Defined.

Lemma submit_listener_focuses_after_a_failure_witness :
  _form rejected_world = Some 111
  /\ submitListener_settle Sample.css Sample.origin_of Sample.resolves
       (FetchRejected NetworkFailure) rejected_world
     = (Normal tt,
        set_log
          [ConsoleWarn NetworkFailure; Focus 117;
           SetSelectionRange 117 (-1) (-1)]
          rejected_world).
Proof.
  split; [reflexivity |].
  apply (submit_listener_focuses_after_a_failure Sample.css Sample.origin_of Sample.resolves
           (FetchRejected NetworkFailure) rejected_world NetworkFailure
           Sample.invalid_form
           (Sample.el 117 "input"
              [("id", "name"); ("name", "name"); ("type", "text");
               ("value", "R2"); ("aria-invalid", "true");
               ("enhance-validate", EmptyString)] [])
           Sample.is_invalid).
  - reflexivity.
  - reflexivity.
  - reflexivity.
  - reflexivity.
  - reflexivity.
  - reflexivity.
  - reflexivity.
Defined.

Lemma null_form_reference_disables_the_component_witness :
  _form Sample.orphan_world = None
  /\ log (snd (handleFormValidation Sample.css Sample.origin_of Sample.resolves
                 (FetchResolved (Sample.response 200 [])
                    (Parsed Sample.errors_html))
                 Sample.orphan_world))
     = [PreventDefault; ConsoleWarn TypeError]
  /\ fst (submitListener Sample.css Sample.origin_of Sample.resolves
            (FetchResolved (Sample.response 200 [])
               (Parsed Sample.errors_html))
            Sample.orphan_world)
     = Throw TypeError.
Proof.
  split; [reflexivity |].
  destruct (null_form_reference_disables_the_component Sample.css
              Sample.origin_of
              Sample.resolves Sample.orphan_world (mkInput "email" "a")
              (FetchResolved (Sample.response 200 [])
                 (Parsed Sample.errors_html)))
    as [H1 [_ [H3 _]]].
  - reflexivity.
  - discriminate.
  - split; [rewrite H1; reflexivity | exact H3].
Defined.

Lemma constructor_requires_a_form_witness :
  lookup 10 (page_dom Sample.readme_page) = Some Sample.readme_component
  /\ constructor Sample.css
       (mkPage [Sample.el 10 "enhance-form" [] [Sample.el 11 "p" [] []]]
          "https://shop.example" false) 10
     = Throw (Error "No form found in <enhance-form>")
  /\ exists w,
       constructor Sample.css Sample.readme_page 10 = Normal w
       /\ _form w = Some 11.
Proof.
  split; [reflexivity |]. split.
  - destruct (constructor_requires_a_form Sample.css
                (mkPage [Sample.el 10 "enhance-form" []
                           [Sample.el 11 "p" [] []]]
                   "https://shop.example" false) 10
                (Sample.el 10 "enhance-form" [] [Sample.el 11 "p" [] []])
                Sample.is_form)
      as [H _].
    + reflexivity.
    + reflexivity.
    + apply H. reflexivity.
  - destruct (constructor_requires_a_form Sample.css Sample.readme_page 10
                Sample.readme_component Sample.is_form)
      as [_ H].
    + reflexivity.
    + reflexivity.
    + destruct (H Sample.readme_form) as [w [Hw [Hf _]]]; [reflexivity |].
      exists w. split; [exact Hw | exact Hf].
Defined.

Lemma fail_target_defaults_to_target_witness :
  constructor Sample.css
    (mkPage [Sample.demo_document] "https://shop.example" true) 10
  = Normal Sample.demo_world
  /\ _targetSelector Sample.demo_world = "main"
  /\ _failTargetSelector Sample.demo_world = "main".
Proof.
  split; [reflexivity |].
  apply (fail_target_defaults_to_target Sample.css
           (mkPage [Sample.demo_document] "https://shop.example" true) 10
           Sample.demo_component Sample.demo_world).
  - reflexivity.
  - reflexivity.
Defined.

Lemma field_validation_never_reaches_onSubmit_witness :
  _form Sample.readme_world = Some 11
  /\ Server.createPostHandler (fun e : string => [e]) sample_onSubmit
       (Server.Success 7)
       [(EnhancedHeader.Validate, "email");
        ("Content-Type", "multipart/form-data")]
     = (Server.Render 200 (Server.mkProps (Some 7) None None), []).
Proof.
  split; [reflexivity |].
  destruct (field_validation_never_reaches_onSubmit Sample.css
              Sample.origin_of
              Sample.resolves nat string (list string) unit
              (fun e : string => [e]) sample_onSubmit
              (mkInput "email" "a") Sample.readme_world 11
              [("Content-Type", "multipart/form-data")]
              (Server.Success 7))
    as [_ H].
  - discriminate.
  - reflexivity.
  - vm_compute. discriminate.
  - reflexivity.
  - exact H.
Defined.

Lemma submission_reaches_onSubmit_when_valid_witness :
  Server.isInlineValidation [("Content-Type", "multipart/form-data")] = false
  /\ Server.createPostHandler (fun e : string => [e]) sample_onSubmit
       (Server.Success 7)
       [(EnhancedHeader.Submit, "form");
        ("Content-Type", "multipart/form-data")]
     = (Server.Redirect 302 "/dietary-form/success", [7]).
Proof.
  split; [reflexivity |].
  destruct (submission_reaches_onSubmit_when_valid Sample.css
              Sample.origin_of
              Sample.resolves nat string (list string) unit
              (fun e : string => [e]) sample_onSubmit
              Sample.readme_world 11
              [("Content-Type", "multipart/form-data")]
              (Server.Success 7))
    as [_ H].
  - reflexivity.
  - reflexivity.
  - exact H.
Defined.

Lemma nameless_field_validation_is_taken_for_a_submission_witness :
  Server.header_values "X-Enhance-Validate"
    [("Content-Type", "multipart/form-data")] = []
  /\ snd (Server.createPostHandler (fun e : string => [e]) sample_onSubmit
            (Server.Success 7)
            [(EnhancedHeader.Validate, EmptyString);
             ("Content-Type", "multipart/form-data")])
     = [7].
Proof.
  split; [reflexivity |].
  destruct (nameless_field_validation_is_taken_for_a_submission Sample.css
              Sample.origin_of
              Sample.resolves nat string (list string) unit
              (fun e : string => [e]) sample_onSubmit
              (mkInput EmptyString "a") Sample.readme_world 11
              [("Content-Type", "multipart/form-data")] 7)
    as [_ [_ H]].
  - discriminate.
  - reflexivity.
  - reflexivity.
  - reflexivity.
  - reflexivity.
  - exact H.
Defined.

(** * After a validation failure *)

Section Adoption.

Variable css : string -> option (Node -> bool).
Variable origin_of : string -> option string.
Variable resolves : string -> bool.

(** The form adopted from a 4XX response is the one the next requests
    post: after the response has been handled, a submit and a blur on a
    non-empty field whose name [Headers.append] takes both call fetch with
    the new form. *)
Theorem adopted_form_is_posted_next :
  forall (w : World) (response : Response) (html : Node) (k : Ctx)
         (oldForm newForm component : Node) (rest : Forest)
         (pf pv : Node -> bool) (t : HTMLInputElement),
    css "form" = Some pf ->
    css validateSelector = Some pv ->
    400 <= status response <= 499 ->
    getHeader response EnhancedHeader.Redirect = None ->
    redirected response
    && negb (isInternalUrl origin_of w (url response)) = false ->
    querySelector pf html = Some newForm ->
    dom w = plug k oldForm :: rest ->
    ~ In (uid oldForm) (ctx_ids k) ->
    ~ In (uid oldForm) (uids rest) ->
    ~ In (uid newForm) (ctx_ids k) ->
    lookup (this w) (dom w) = Some component ->
    querySelector pf component = Some oldForm ->
    value t <> EmptyString ->
    let w' := snd (handleFormValidation_settle css origin_of resolves
                     (FetchResolved response (Parsed html)) w) in
    (exists before,
        log (step css origin_of resolves SubmitSent w')
        = before ++ [Fetch (uid newForm)
                       (EnhancedHeader.Submit, "form")
                       (Some (length (aborts w)))])
    /\ (header_value (normalize (name t)) = true ->
        exists before,
          log (step css origin_of resolves (BlurSent t) w')
          = before ++ [Fetch (uid newForm)
                         (EnhancedHeader.Validate, normalize (name t))
                         (Some (length (aborts w)))]).
Proof.
  intros w response html k oldForm newForm component rest pf pv t
    Hpf Hpv Hst Hhdr Hext Hnew Hdom Hold Hrest Hfresh Hthis Hform Hv w'.
  assert (Hw' : w' = after4XX k oldForm newForm rest pv w).
  { subst w'.
    rewrite (settle_parsed_run css origin_of resolves response html w Hext Hhdr).
    unfold try_catch. unfold bind at 1.
    rewrite (on4XX_run css w response html k oldForm newForm component rest
               pf pv Hpf Hpv Hst Hnew Hdom Hold Hrest Hfresh Hthis Hform).
    unfold on5XX, on200.
    rewrite status_not_5XX by lia.
    replace (Nat.eqb (status response) 200) with false
      by (symmetry; apply Nat.eqb_neq; lia).
    reflexivity. }
  rewrite Hw'. split.
  - destruct (submit_sent_run css origin_of resolves
                (after4XX k oldForm newForm rest pv w)) as [_ [_ [Hl _]]].
    rewrite Hl. simpl _form. eexists. rewrite !app_assoc. reflexivity.
  - intro Hok.
    destruct (blur_sent_run css origin_of resolves t
                (after4XX k oldForm newForm rest pv w) Hv)
      as [_ [_ [Hl _]]].
    rewrite Hl. unfold addHeader. rewrite Hok. simpl _form.
    eexists. rewrite !app_assoc. reflexivity.
Qed.

End Adoption.

Lemma adopted_form_is_posted_next_witness :
  plug readme_context Sample.readme_form = Sample.readme_document
  /\ log (step Sample.css Sample.origin_of Sample.resolves SubmitSent rejected_world)
     = [PreventDefault;
        Fetch 111 (EnhancedHeader.Submit, "form") (Some 0)].
Proof.
  split; [reflexivity |].
  destruct (adopted_form_is_posted_next Sample.css Sample.origin_of Sample.resolves
              Sample.readme_world (Sample.response 422 [])
              Sample.invalid_form_html readme_context
              Sample.readme_form Sample.invalid_form Sample.readme_component
              [] Sample.is_form Sample.is_validate (mkInput "email" "a"))
    as [[before H] _].
  - reflexivity.
  - reflexivity.
  - simpl. lia.
  - reflexivity.
  - reflexivity.
  - reflexivity.
  - reflexivity.
  - vm_compute. intuition discriminate.
  - simpl. intros [].
  - vm_compute. intuition discriminate.
  - reflexivity.
  - reflexivity.
  - discriminate.
  - reflexivity.
Defined.
